(** * Hacker News ordering check: a model of the two script variants

    The repository holds two variants of one Playwright script:
    [src/index.js] (regex-and-table parser, retry, screenshots, logger) and an
    earlier, shorter variant (parseInt-and-includes parser).  Both open
    the "newest" listing, turn each row's relative-time label into a
    [Date], and check that the rows run from newest to oldest.

    Conventions of the embedding.
    - Strings are [string]s of 8-bit code units (the Latin-1 part of a
      JavaScript string).
    - Numbers: every time value a [Date] can hold is an integer of
      magnitude at most 8.64e15 < 2^53, where IEEE doubles are exact;
      numbers are therefore [Z] plus [NaN], and a [Date] is a time value
      or the Invalid Date that [new Date(x)] yields outside that range.
      The one division of the script (milliseconds to minutes, before
      [Math.round]) is taken exactly, in [Q]; the rounding of the double
      quotient is not modelled.
    - Effects (the wall clock, the console, the browser) are threaded
      through a state-and-exception monad over a [World]; what the
      outside does (clock readings, whether a browser call throws) is
      read from an [Env]. *)

From Stdlib Require Import ZArith List String Ascii Bool Lia.
From Stdlib Require Import QArith Qround.
From Stdlib Require Import DecimalString.
From Stdlib Require DecimalPos DecimalZ.
Import ListNotations.

Local Open Scope string_scope.
Local Open Scope Z_scope.

(* ================================================================= *)
(** ** Characters and strings *)

Definition code (c : ascii) : N := N_of_ascii c.

Definition between (lo hi : N) (c : ascii) : bool :=
  ((lo <=? code c) && (code c <=? hi))%N.

(** [\d] *)
Definition isDigit (c : ascii) : bool := between 48 57 c.

(** [[a-zA-Z]] *)
Definition isLetter (c : ascii) : bool := between 65 90 c || between 97 122 c.

(** [\s] (and the white space [parseInt] skips), on 8-bit code units:
    TAB, LF, VT, FF, CR, SPACE and NBSP. *)
Definition isSpace (c : ascii) : bool :=
  between 9 13 c || (code c =? 32)%N || (code c =? 160)%N.

(** The longest prefix whose characters satisfy [p], and what follows. *)
Fixpoint span (p : ascii -> bool) (s : string) : string * string :=
  match s with
  | EmptyString => (EmptyString, EmptyString)
  | String c s' =>
      if p c then let (a, b) := span p s' in (String c a, b)
      else (EmptyString, s)
  end.

(** [String.prototype.toLowerCase], on 8-bit code units. *)
Definition lower (c : ascii) : ascii :=
  if between 65 90 c
     || (between 192 222 c && negb (code c =? 215)%N)
  then ascii_of_N (code c + 32) else c.

Fixpoint toLowerCase (s : string) : string :=
  match s with
  | EmptyString => EmptyString
  | String c s' => String (lower c) (toLowerCase s')
  end.

(** [s.replace(/s$/, '')]: drop one final "s". *)
Fixpoint replace_final_s (s : string) : string :=
  match s with
  | EmptyString => EmptyString
  | String c EmptyString => if Ascii.eqb c "s" then EmptyString else s
  | String c s' => String c (replace_final_s s')
  end.

(** [hay.includes(needle)] *)
Fixpoint includes (needle hay : string) : bool :=
  String.prefix needle hay ||
  match hay with
  | EmptyString => false
  | String _ hay' => includes needle hay'
  end.

(** One attempt of [/(\d+)\s*([a-zA-Z]+)/] at the start of [s].  The
    three classes are pairwise disjoint, so the only split that can
    succeed is the greedy one (giving back a digit or a space leaves a
    digit or a space where the next group needs something else). *)
Definition match_here (s : string) : option (string * string) :=
  let (number, s1) := span isDigit s in
  match number with
  | EmptyString => None
  | _ =>
      let (_, s2) := span isSpace s1 in
      let (unit, _) := span isLetter s2 in
      match unit with
      | EmptyString => None
      | _ => Some (number, unit)
      end
  end.

(** [timeText.match(/(\d+)\s*([a-zA-Z]+)/)]: the leftmost position at
    which the pattern matches; the two capture groups. *)
Fixpoint regex_match (s : string) : option (string * string) :=
  match match_here s with
  | Some m => Some m
  | None =>
      match s with
      | EmptyString => None
      | String _ s' => regex_match s'
      end
  end.

(* ================================================================= *)
(** ** Numbers, [parseInt], dates *)

Inductive JSNum : Type :=
| Num (z : Z)
| NaN.

Definition js_sub (a b : JSNum) : JSNum :=
  match a, b with
  | Num x, Num y => Num (x - y)
  | _, _ => NaN
  end.

Definition js_mul (a b : JSNum) : JSNum :=
  match a, b with
  | Num x, Num y => Num (x * y)
  | _, _ => NaN
  end.

(** [a === b] on numbers: [NaN] equals nothing. *)
Definition js_eq (a b : JSNum) : bool :=
  match a, b with
  | Num x, Num y => x =? y
  | _, _ => false
  end.

(** [a > b] on numbers: false when either side is [NaN]. *)
Definition js_gt (a b : JSNum) : bool :=
  match a, b with
  | Num x, Num y => y <? x
  | _, _ => false
  end.

(** Value of a digit in radix up to 16. *)
Definition digit_value (c : ascii) : option Z :=
  if isDigit c then Some (Z.of_N (code c) - 48)
  else if between 97 102 c then Some (Z.of_N (code c) - 87)
  else if between 65 70 c then Some (Z.of_N (code c) - 55)
  else None.

Definition radix_digit (radix : Z) (c : ascii) : option Z :=
  match digit_value c with
  | Some d => if d <? radix then Some d else None
  | None => None
  end.

(** Reads digits of the radix from the left until one is not. *)
Fixpoint read_digits (radix acc : Z) (s : string) : Z :=
  match s with
  | EmptyString => acc
  | String c s' =>
      match radix_digit radix c with
      | Some d => read_digits radix (acc * radix + d) s'
      | None => acc
      end
  end.

Definition digits_or_NaN (radix : Z) (s : string) : option Z :=
  match s with
  | EmptyString => None
  | String c _ =>
      match radix_digit radix c with
      | Some _ => Some (read_digits radix 0 s)
      | None => None
      end
  end.

(** The sign [parseInt] takes off the front. *)
Definition take_sign (s : string) : Z * string :=
  match s with
  | String "-" r => (-1, r)
  | String "+" r => (1, r)
  | _ => (1, s)
  end.

(** The radix [parseInt] settles on when it is given none: 16 after a
    [0x] or [0X] prefix, which it takes off, else 10. *)
Definition take_radix (s : string) : Z * string :=
  match s with
  | String "0" (String "x" r) => (16, r)
  | String "0" (String "X" r) => (16, r)
  | _ => (10, s)
  end.

(** [parseInt(s)] with no radix argument: skip white space, take a
    sign, take a [0x]/[0X] prefix as radix 16, read the digits;
    [NaN] when there is none. *)
Definition parseInt (s : string) : JSNum :=
  let (_, s1) := span isSpace s in
  let (sign, s2) := take_sign s1 in
  let (radix, s3) := take_radix s2 in
  match digits_or_NaN radix s3 with
  | Some v => Num (sign * v)
  | None => NaN
  end.

Inductive Date : Type :=
| TimeValue (t : Z)
| InvalidDate.

Definition maxTime : Z := 8640000000000000.

(** [new Date(x)] for a number [x]. *)
Definition Date_of_number (x : JSNum) : Date :=
  match x with
  | Num t => if Z.abs t <=? maxTime then TimeValue t else InvalidDate
  | NaN => InvalidDate
  end.

(** A date used as a number ([getTime()], or [-] and [>] applied to it). *)
Definition getTime (d : Date) : JSNum :=
  match d with
  | TimeValue t => Num t
  | InvalidDate => NaN
  end.

(** [Math.round(x)]: the floor of [x + 1/2]. *)
Definition Math_round (x : Q) : Z := Qfloor (x + (1 # 2))%Q.

(* ================================================================= *)
(** ** Property lookup on the [multipliers] object *)

Inductive JSValue : Type :=
| Undefined
| Number (n : JSNum)
| Inherited (name : string).   (* a function or object of Object.prototype *)

Definition truthy (v : JSValue) : bool :=
  match v with
  | Undefined => false
  | Number (Num z) => negb (z =? 0)
  | Number NaN => false
  | Inherited _ => true
  end.

Definition ToNumber (v : JSValue) : JSNum :=
  match v with
  | Number n => n
  | Undefined | Inherited _ => NaN
  end.

(** What every object literal inherits. *)
Definition Object_prototype : list string :=
  [ "constructor"; "hasOwnProperty"; "isPrototypeOf";
    "propertyIsEnumerable"; "toLocaleString"; "toString"; "valueOf";
    "__proto__"; "__defineGetter__"; "__defineSetter__";
    "__lookupGetter__"; "__lookupSetter__" ].

Fixpoint own_property (o : list (string * Z)) (k : string) : option Z :=
  match o with
  | [] => None
  | (k', v) :: o' => if String.eqb k' k then Some v else own_property o' k
  end.

(** [o[k]]: an own property, else one of the prototype, else [undefined]. *)
Definition get (o : list (string * Z)) (k : string) : JSValue :=
  match own_property o k with
  | Some v => Number (Num v)
  | None =>
      if existsb (String.eqb k) Object_prototype then Inherited k
      else Undefined
  end.

Definition multipliers : list (string * Z) :=
  [ ("minute", 60 * 1000);
    ("hour", 60 * 60 * 1000);
    ("day", 24 * 60 * 60 * 1000);
    ("month", 30 * 24 * 60 * 60 * 1000);
    ("year", 365 * 24 * 60 * 60 * 1000) ].

(* ================================================================= *)
(** ** The world: clock, console, browser *)

Record Error : Type := { message : string; stack : string }.

(** What [captureScreenshot] meets: [fs.mkdir] throws, [page.screenshot]
    throws, or the file is written. *)
Inductive ShotOutcome : Type :=
| MkdirThrows (e : Error)
| ScreenshotThrows (e : Error)
| Saved.

(** A [tr.athing] row: what [textContent()] gives for its title link
    and for the age link of the row that follows it, a text or an error
    thrown (the element is missing). *)
Record Row : Type := {
  title_text : Error + string;
  age_text : Error + string
}.

(** What the outside does during a run.  [None] is a call that
    succeeds; the functions of [nat] answer the k-th call of their
    kind. *)
Record Env : Type := {
  clock : nat -> Z;
  launch : option Error;
  newContext : option Error;
  newPage : option Error;
  goto : nat -> option Error;
  all : nat -> Error + list Row;
  screenshot : nat -> ShotOutcome
}.

Inductive Stream : Type := Stdout | Stderr.

(** What a run does to the outside, in order.  A [Console] line of the
    logger carries the clock reading it prints between brackets. *)
Inductive Event : Type :=
| Launch
| Goto
| LocateAll
| Sleep (ms : Z)
| Console (s : Stream) (stamp : option Z) (text : string)
| Screenshot (file : string)
| Close.

Record World : Type := {
  reads : nat;        (* clock readings taken so far *)
  gotos : nat;        (* calls of page.goto so far *)
  alls : nat;         (* calls of locator.all so far *)
  shots : nat;        (* calls of captureScreenshot so far *)
  page : bool;        (* the local [page] has been assigned *)
  trace : list Event
}.

Definition start : World :=
  {| reads := 0; gotos := 0; alls := 0; shots := 0; page := false;
     trace := [] |}.

Inductive Res (A : Type) : Type :=
| Ok (a : A)
| Throw (e : Error).
Arguments Ok {A} a.
Arguments Throw {A} e.

Definition M (A : Type) : Type := World -> Res A * World.

Definition ret {A} (a : A) : M A := fun w => (Ok a, w).

Definition throw {A} (e : Error) : M A := fun w => (Throw e, w).

Definition bind {A B} (m : M A) (k : A -> M B) : M B :=
  fun w =>
    match m w with
    | (Ok a, w1) => k a w1
    | (Throw e, w1) => (Throw e, w1)
    end.

(** [try { m } catch (error) { h error }] *)
Definition try_catch {A} (m : M A) (h : Error -> M A) : M A :=
  fun w =>
    match m w with
    | (Ok a, w1) => (Ok a, w1)
    | (Throw e, w1) => h e w1
    end.

(** [try { m } finally { f }]: [f] runs however [m] ends, and the way
    [m] ended stands unless [f] throws. *)
Definition finally {A} (m : M A) (f : M unit) : M A :=
  fun w =>
    let (r, w1) := m w in
    match f w1 with
    | (Ok _, w2) => (r, w2)
    | (Throw e, w2) => (Throw e, w2)
    end.

Declare Scope js_scope.
Delimit Scope js_scope with js.
Notation "x <- m ;; k" := (bind m (fun x => k))
  (at level 61, m at next level, right associativity) : js_scope.
Notation "m ;; k" := (bind m (fun _ => k))
  (at level 61, right associativity) : js_scope.
Local Open Scope js_scope.

Definition emit (e : Event) : M unit :=
  fun w =>
    (Ok tt,
     {| reads := reads w; gotos := gotos w; alls := alls w;
        shots := shots w; page := page w;
        trace := (trace w ++ [e])%list |}).

Definition set_page : M unit :=
  fun w =>
    (Ok tt,
     {| reads := reads w; gotos := gotos w; alls := alls w;
        shots := shots w; page := true; trace := trace w |}).

Definition get_page : M bool := fun w => (Ok (page w), w).

(** An outcome of the outside turned into a result. *)
Definition outcome (o : option Error) : M unit :=
  match o with
  | None => ret tt
  | Some e => throw e
  end.

Definition textContent (t : Error + string) : M string :=
  match t with
  | inl e => throw e
  | inr s => ret s
  end.

Definition TypeError (msg : string) : Error :=
  {| message := msg; stack := "TypeError: " ++ msg |}.

(** Decimal rendering of an integer in a template literal. *)
Definition show (z : Z) : string := NilZero.string_of_int (Z.to_int z).

Definition dq : string := String (ascii_of_nat 34) EmptyString.
Definition nl : string := String (ascii_of_nat 10) EmptyString.

Module CONFIG.

Definition maxRetries : nat := 3.

Definition retryDelay : Z := 1000.

Definition articleLimit : nat := 100.

Definition screenshotDir : string := "screenshots".

End CONFIG.

Record Article : Type := {
  title : string;
  timeText : string;
  timestamp : Date
}.

Record SortingError : Type := {
  position : nat;
  article1 : Article;
  article2 : Article;
  timeDiff : JSNum
}.

Section Script.

Variable env : Env.

(** [Date.now()] *)
Definition Date_now : M Z :=
  fun w =>
    (Ok (clock env (reads w)),
     {| reads := S (reads w); gotos := gotos w; alls := alls w;
        shots := shots w; page := page w; trace := trace w |}).

(** [new Date()] *)
Definition new_Date : M Date :=
  t <- Date_now ;; ret (TimeValue t).

(** [logger.info] and [logger.error]: a fresh clock reading between
    brackets, then the level and the message. *)
Definition logger_info (msg : string) : M unit :=
  t <- Date_now ;; emit (Console Stdout (Some t) ("INFO: " ++ msg)).

Definition logger_error (msg : string) : M unit :=
  t <- Date_now ;; emit (Console Stderr (Some t) ("ERROR: " ++ msg)).

Definition console_log (text : string) : M unit :=
  emit (Console Stdout None text).

Definition console_error (text : string) : M unit :=
  emit (Console Stderr None text).

(* ----------------------------------------------------------------- *)
(** *** [parseTimeAgo] of [src/index.js] *)

Definition parseTimeAgo (timeText : string) : M Date :=
  now <- new_Date ;;
  match regex_match timeText with
  | None => ret now
  | Some (number, unit) =>
      let value := parseInt number in
      let normalizedUnit := replace_final_s (toLowerCase unit) in
      let multiplier := get multipliers normalizedUnit in
      if negb (truthy multiplier) then
        logger_error ("Unknown time unit: " ++ unit ++ " in " ++ dq
                      ++ timeText ++ dq) ;;
        ret now
      else
        ret (Date_of_number
               (js_sub (getTime now) (js_mul value (ToNumber multiplier))))
  end.

(* ----------------------------------------------------------------- *)
(** *** [parseTimeAgo] of the earlier variant *)

Definition parseTimeAgo0 (timeText : string) : M Date :=
  now <- new_Date ;;
  let number := parseInt timeText in
  let ago (ms : JSNum) := ret (Date_of_number (js_sub (getTime now) ms)) in
  if includes "minute" timeText then
    ago (js_mul (js_mul number (Num 60)) (Num 1000))
  else if includes "hour" timeText then
    ago (js_mul (js_mul (js_mul number (Num 60)) (Num 60)) (Num 1000))
  else if includes "day" timeText then
    ago (js_mul (js_mul (js_mul (js_mul number (Num 24)) (Num 60)) (Num 60))
           (Num 1000))
  else if includes "month" timeText then
    ago (js_mul (js_mul (js_mul (js_mul (js_mul number (Num 30)) (Num 24))
                           (Num 60)) (Num 60)) (Num 1000))
  else if includes "year" timeText then
    ago (js_mul (js_mul (js_mul (js_mul (js_mul number (Num 365)) (Num 24))
                           (Num 60)) (Num 60)) (Num 1000))
  else ret now.

(* ----------------------------------------------------------------- *)
(** *** Browser calls *)

Definition sleep (ms : Z) : M unit := emit (Sleep ms).

(** [chromium.launch()] *)
Definition chromium_launch : M unit :=
  outcome (launch env) ;; emit Launch.

(** [browser.close()] *)
Definition browser_close : M unit := emit Close.

(** [page.goto(url)] *)
Definition page_goto : M unit :=
  fun w =>
    (emit Goto ;; outcome (goto env (gotos w)))
      {| reads := reads w; gotos := S (gotos w); alls := alls w;
         shots := shots w; page := page w; trace := trace w |}.

(** [page.locator('tr.athing').all()] *)
Definition locator_all : M (list Row) :=
  fun w =>
    (emit LocateAll ;;
     match all env (alls w) with
     | inl e => throw e
     | inr rows => ret rows
     end)
      {| reads := reads w; gotos := gotos w; alls := S (alls w);
         shots := shots w; page := page w; trace := trace w |}.

Definition captureScreenshot (name : string) : M string :=
  fun w =>
    (match screenshot env (shots w) with
     | MkdirThrows e => throw e
     | o =>
         t <- Date_now ;;
         let filename :=
           CONFIG.screenshotDir ++ "/" ++ name ++ "_" ++ show t ++ ".png" in
         match o with
         | ScreenshotThrows e => throw e
         | _ => emit (Screenshot filename) ;; ret filename
         end
     end)
      {| reads := reads w; gotos := gotos w; alls := alls w;
         shots := S (shots w); page := page w; trace := trace w |}.

(* ----------------------------------------------------------------- *)
(** *** [retry] *)

(** The loop [for (let i = 0; i < retries; i++)] from [i] on, with
    [todo = retries - i] rounds to go.  Falling out of the loop returns
    [undefined] ([None]). *)
Fixpoint retry_from {A} (fn : M A) (retries i todo : nat) : M (option A) :=
  match todo with
  | O => ret None
  | S todo' =>
      try_catch (a <- fn ;; ret (Some a))
        (fun error =>
           if Nat.eqb i (retries - 1) then throw error
           else
             let delay := CONFIG.retryDelay * 2 ^ Z.of_nat i in
             logger_info ("Attempt " ++ show (Z.of_nat i + 1)
                          ++ " failed. Retrying in " ++ show delay
                          ++ "ms...") ;;
             sleep delay ;;
             retry_from fn retries (S i) todo')
  end.

Definition retry {A} (fn : M A) (retries : nat) : M (option A) :=
  retry_from fn retries 0 retries.

(* ----------------------------------------------------------------- *)
(** *** [validateHNSorting] of [src/index.js] *)

(** Lines 59-71: the rows from index [i] on, [todo] of them. *)
Fixpoint collect (rows : list Row) (i todo : nat) (articles : list Article)
  : M (list Article) :=
  match todo with
  | O => ret articles
  | S todo' =>
      match nth_error rows i with
      | None => throw (TypeError "row is undefined")
      | Some row =>
          title <- textContent (title_text row) ;;
          timeText <- textContent (age_text row) ;;
          timestamp <- parseTimeAgo timeText ;;
          collect rows (S i) todo'
            (articles ++ [ {| title := title; timeText := timeText;
                              timestamp := timestamp |} ])%list
      end
  end.

(** [Math.round((curr.timestamp - prev.timestamp) / 1000 / 60)] *)
Definition minutes_between (curr prev : Date) : JSNum :=
  match js_sub (getTime curr) (getTime prev) with
  | Num d => Num (Math_round (inject_Z d / 1000 / 60))
  | NaN => NaN
  end.

(** Lines 76-101: the loop [for (let i = 1; i < articles.length; i++)]
    from [i] on, [todo] rounds to go; the final [isSorted] and
    [sortingErrors]. *)
Fixpoint sort_loop (articles : list Article) (i todo : nat)
  : M (bool * list SortingError) :=
  match todo with
  | O => ret (true, [])
  | S todo' =>
      match nth_error articles i, nth_error articles (i - 1) with
      | Some curr, Some prev =>
          if js_eq (getTime (timestamp curr)) (getTime (timestamp prev)) then
            logger_info
              ("Skipping comparison of articles with identical timestamps ("
               ++ timeText curr ++ "):" ++ nl
               ++ "                    - " ++ title prev ++ nl
               ++ "                    - " ++ title curr) ;;
            sort_loop articles (S i) todo'
          else if js_gt (getTime (timestamp curr)) (getTime (timestamp prev))
          then
            let timeDiff :=
              minutes_between (timestamp curr) (timestamp prev) in
            ret (false,
                 [ {| position := i; article1 := prev; article2 := curr;
                      timeDiff := timeDiff |} ])
          else sort_loop articles (S i) todo'
      | _, _ => throw (TypeError "article is undefined")
      end
  end.

Definition verify (articles : list Article) : M (bool * list SortingError) :=
  sort_loop articles 1 (List.length articles - 1).

Definition show_num (n : JSNum) : string :=
  match n with
  | Num z => show z
  | NaN => "NaN"
  end.

(** Lines 110-114. *)
Fixpoint report (sortingErrors : list SortingError) : M unit :=
  match sortingErrors with
  | [] => ret tt
  | error :: rest =>
      logger_error ("Position " ++ show (Z.of_nat (position error))
                    ++ " - Time difference: " ++ show_num (timeDiff error)
                    ++ " minutes") ;;
      logger_error ("  Earlier: " ++ title (article1 error) ++ " ("
                    ++ timeText (article1 error) ++ ")") ;;
      logger_error ("   Later: " ++ title (article2 error) ++ " ("
                    ++ timeText (article2 error) ++ ")") ;;
      report rest
  end.

(** The body of [try]. *)
Definition validate_body (startTime : Z) : M unit :=
  outcome (newContext env) ;;
  outcome (newPage env) ;;
  set_page ;;
  logger_info "Navigating to Hacker News newest stories..." ;;
  retry page_goto CONFIG.maxRetries ;;
  logger_info "Collecting article data..." ;;
  rows <- retry locator_all CONFIG.maxRetries ;;
  match rows with
  | None => throw (TypeError "rows is undefined")
  | Some rows =>
      articles <- collect rows 0
                    (Nat.min CONFIG.articleLimit (List.length rows)) [] ;;
      logger_info ("Collected " ++ show (Z.of_nat (List.length articles))
                   ++ " articles") ;;
      verdict <- verify articles ;;
      let (isSorted, sortingErrors) := verdict in
      now <- Date_now ;;
      let executionTime := now - startTime in
      if isSorted then
        logger_info
          ("✅ Validation passed: Articles are correctly sorted from newest to oldest ("
           ++ show executionTime ++ "ms)")
      else
        logger_error
          "❌ Validation failed: Articles are not properly sorted" ;;
        logger_error "Sorting errors:" ;;
        report sortingErrors ;;
        screenshotPath <- captureScreenshot "sorting_failure" ;;
        logger_info ("Screenshot saved to: " ++ screenshotPath)
  end.

(** The body of [catch (error)]. *)
Definition validate_catch (error : Error) : M unit :=
  logger_error ("An error occurred: " ++ message error) ;;
  logger_error (stack error) ;;
  p <- get_page ;;
  (if p then
     try_catch
       (screenshotPath <- captureScreenshot "error" ;;
        logger_info ("Error screenshot saved to: " ++ screenshotPath))
       (fun screenshotError =>
          logger_error ("Failed to capture error screenshot: "
                        ++ message screenshotError))
   else ret tt) ;;
  throw error.

(** The body of [finally]. *)
Definition validate_finally (startTime : Z) : M unit :=
  browser_close ;;
  now <- Date_now ;;
  logger_info ("Total execution time: " ++ show (now - startTime) ++ "ms").

Definition validateHNSorting : M unit :=
  startTime <- Date_now ;;
  chromium_launch ;;
  finally (try_catch (validate_body startTime) validate_catch)
          (validate_finally startTime).

(* ----------------------------------------------------------------- *)
(** *** [validateHNSorting] of the earlier variant *)

Fixpoint collect0 (rows : list Row) (i todo : nat) (articles : list Article)
  : M (list Article) :=
  match todo with
  | O => ret articles
  | S todo' =>
      match nth_error rows i with
      | None => throw (TypeError "row is undefined")
      | Some row =>
          title <- textContent (title_text row) ;;
          timeText <- textContent (age_text row) ;;
          timestamp <- parseTimeAgo0 timeText ;;
          collect0 rows (S i) todo'
            (articles ++ [ {| title := title; timeText := timeText;
                              timestamp := timestamp |} ])%list
      end
  end.

(** The loop of lines 35-43 from [i] on; the final [isSorted]. *)
Fixpoint sort_loop0 (articles : list Article) (i todo : nat) : M bool :=
  match todo with
  | O => ret true
  | S todo' =>
      match nth_error articles i, nth_error articles (i - 1) with
      | Some curr, Some prev =>
          if js_gt (getTime (timestamp curr)) (getTime (timestamp prev)) then
            console_error ("Sorting error detected at position "
                           ++ show (Z.of_nat i) ++ ":") ;;
            console_error ("  " ++ title prev ++ " (" ++ timeText prev ++ ")") ;;
            console_error ("  " ++ title curr ++ " (" ++ timeText curr ++ ")") ;;
            ret false
          else sort_loop0 articles (S i) todo'
      | _, _ => throw (TypeError "article is undefined")
      end
  end.

Definition validate_body0 : M unit :=
  outcome (newContext env) ;;
  outcome (newPage env) ;;
  console_log "Navigating to Hacker News newest stories..." ;;
  page_goto ;;
  console_log "Collecting article data..." ;;
  rows <- locator_all ;;
  articles <- collect0 rows 0 (Nat.min 100 (List.length rows)) [] ;;
  console_log ("Collected " ++ show (Z.of_nat (List.length articles))
               ++ " articles") ;;
  isSorted <- sort_loop0 articles 1 (List.length articles - 1) ;;
  if isSorted then
    console_log
      "✅ Validation passed: Articles are correctly sorted from newest to oldest"
  else
    console_log "❌ Validation failed: Articles are not properly sorted".

Definition validate_catch0 (error : Error) : M unit :=
  console_error ("An error occurred: " ++ stack error).

Definition validateHNSorting0 : M unit :=
  chromium_launch ;;
  finally (try_catch validate_body0 validate_catch0) browser_close.

End Script.

(* ================================================================= *)
(** ** Vocabulary of the statements *)

(** Every character of [s] satisfies [p]. *)
Fixpoint every (p : ascii -> bool) (s : string) : bool :=
  match s with
  | EmptyString => true
  | String c s' => p c && every p s'
  end.

(** [s] is empty or begins with a character that fails [p]. *)
Definition first_not (p : ascii -> bool) (s : string) : bool :=
  match s with
  | EmptyString => true
  | String c _ => negb (p c)
  end.

Definition notDigit (c : ascii) : bool := negb (isDigit c).

(** The number a string of decimal digits denotes, digit by position. *)
Fixpoint magnitude (number : string) : Z :=
  match number with
  | EmptyString => 0
  | String c s' =>
      (Z.of_N (code c) - 48) * 10 ^ Z.of_nat (String.length s')
      + magnitude s'
  end.

(** Date [a] is an instant strictly later than the instant [b]. *)
Definition later (a b : Date) : bool :=
  match a, b with
  | TimeValue x, TimeValue y => y <? x
  | _, _ => false
  end.

(** No entry is strictly later than the entry before it. *)
Fixpoint non_increasing (articles : list Article) : bool :=
  match articles with
  | [] => true
  | prev :: rest =>
      match rest with
      | [] => true
      | curr :: _ =>
          negb (later (timestamp curr) (timestamp prev))
          && non_increasing rest
      end
  end.

(** Whether a browser session is open after the events [tr]. *)
Definition session_open (tr : list Event) : bool :=
  fold_left
    (fun open e =>
       match e with
       | Launch => true
       | Close => false
       | _ => open
       end)
    tr false.

(** The navigations, the row look-ups and the pauses of a trace. *)
Definition attempts (tr : list Event) : list Event :=
  filter
    (fun e =>
       match e with
       | Goto | LocateAll | Sleep _ => true
       | _ => false
       end)
    tr.

(** The letter that follows the zero of a hexadecimal prefix. *)
Definition isX (c : ascii) : bool := Ascii.eqb c "x" || Ascii.eqb c "X".

(** [[a-z]] *)
Definition isLower (c : ascii) : bool := between 97 122 c.

(* ================================================================= *)
(** ** Sample environments and listings *)

(** The error Playwright throws when a page or an element does not
    come. *)
Definition timeout_error : Error :=
  {| message := "Timeout 30000ms exceeded";
     stack := "TimeoutError: Timeout 30000ms exceeded" |}.

(** A browser that never fails, showing [rows], under a clock that
    starts at [t0] and advances one millisecond per reading. *)
Definition ticking (t0 : Z) (rows : list Row) : Env :=
  {| clock := fun k => t0 + Z.of_nat k;
     launch := None; newContext := None; newPage := None;
     goto := fun _ => None;
     all := fun _ => inr rows;
     screenshot := fun _ => Saved |}.

(** The same browser under a clock that stands still at [t0]. *)
Definition frozen (t0 : Z) (rows : list Row) : Env :=
  {| clock := fun _ => t0;
     launch := None; newContext := None; newPage := None;
     goto := fun _ => None;
     all := fun _ => inr rows;
     screenshot := fun _ => Saved |}.

(** A browser whose every navigation fails with [e]. *)
Definition offline (t0 : Z) (e : Error) : Env :=
  {| clock := fun k => t0 + Z.of_nat k;
     launch := None; newContext := None; newPage := None;
     goto := fun _ => Some e;
     all := fun _ => inr [];
     screenshot := fun _ => Saved |}.

(** A browser whose first two row look-ups fail with [e]. *)
Definition flaky_rows (t0 : Z) (e : Error) (rows : list Row) : Env :=
  {| clock := fun k => t0 + Z.of_nat k;
     launch := None; newContext := None; newPage := None;
     goto := fun _ => None;
     all := fun k => match k with
                     | 0%nat | 1%nat => inl e
                     | _ => inr rows
                     end;
     screenshot := fun _ => Saved |}.

(** A browser that navigates but whose every row look-up fails with [e]. *)
Definition no_rows (t0 : Z) (e : Error) : Env :=
  {| clock := fun k => t0 + Z.of_nat k;
     launch := None; newContext := None; newPage := None;
     goto := fun _ => None;
     all := fun _ => inl e;
     screenshot := fun _ => Saved |}.

(** No browser: [chromium.launch()] throws [e]. *)
Definition no_browser (t0 : Z) (e : Error) : Env :=
  {| clock := fun k => t0 + Z.of_nat k;
     launch := Some e; newContext := None; newPage := None;
     goto := fun _ => None;
     all := fun _ => inr [];
     screenshot := fun _ => Saved |}.

(** A browser that launches but cannot open a context. *)
Definition no_context (t0 : Z) (e : Error) : Env :=
  {| clock := fun k => t0 + Z.of_nat k;
     launch := None; newContext := Some e; newPage := None;
     goto := fun _ => None;
     all := fun _ => inr [];
     screenshot := fun _ => Saved |}.

(** A browser whose first two navigations fail with [e]. *)
Definition flaky_goto (t0 : Z) (e : Error) (rows : list Row) : Env :=
  {| clock := fun k => t0 + Z.of_nat k;
     launch := None; newContext := None; newPage := None;
     goto := fun k => match k with
                      | 0%nat | 1%nat => Some e
                      | _ => None
                      end;
     all := fun _ => inr rows;
     screenshot := fun _ => Saved |}.

(** A row whose age link is missing. *)
Definition row_without_age : Row :=
  {| title_text := inr "untimed story"; age_text := inl timeout_error |}.

(** Two rows that carry the same label. *)
Definition same_label_rows : list Row :=
  [ {| title_text := inr "older story"; age_text := inr "5 minutes ago" |};
    {| title_text := inr "newer story"; age_text := inr "5 minutes ago" |} ].

(** Three entries stamped [a], [b] and [c] minutes before [now]. *)
Definition three_entries (now a b c : Z) : list Article :=
  [ {| title := "first"; timeText := show a ++ " minutes ago";
       timestamp := TimeValue (now - a * 60000) |};
    {| title := "second"; timeText := show b ++ " minutes ago";
       timestamp := TimeValue (now - b * 60000) |};
    {| title := "third"; timeText := show c ++ " minutes ago";
       timestamp := TimeValue (now - c * 60000) |} ].

(* ================================================================= *)
(** ** The top level, and further vocabulary *)

(** [validateHNSorting().catch(console.error)], the last line of
    [src/index.js]: a rejection is printed, not propagated. *)
Definition main (env : Env) : M unit :=
  try_catch (validateHNSorting env) (fun error => console_error (stack error)).

(** The same last line of the earlier variant. *)
Definition main0 (env : Env) : M unit :=
  try_catch (validateHNSorting0 env)
            (fun error => console_error (stack error)).

(** The pauses of a trace, in milliseconds. *)
Definition sleeps (tr : list Event) : list Z :=
  flat_map
    (fun e =>
       match e with
       | Sleep ms => [ms]
       | _ => []
       end)
    tr.

(** The files a trace wrote. *)
Definition files (tr : list Event) : list string :=
  flat_map
    (fun e =>
       match e with
       | Screenshot file => [file]
       | _ => []
       end)
    tr.

(** The first [n] pauses of the back-off: base delay times 1, 2, 4, ... *)
Definition backoff (from n : nat) : list Z :=
  map (fun i => CONFIG.retryDelay * 2 ^ Z.of_nat i) (seq from n).

(** A row whose title and age are both there. *)
Definition mk_row (texts : string * string) : Row :=
  {| title_text := inr (fst texts); age_text := inr (snd texts) |}.

(** What was read off the page for an entry. *)
Definition texts_of (a : Article) : string * string :=
  (title a, timeText a).

(** One of the five words the earlier parser looks for occurs in the
    label. *)
Definition has_unit_word (label : string) : bool :=
  includes "minute" label || includes "hour" label || includes "day" label
  || includes "month" label || includes "year" label.

(** The three lines the earlier variant prints for an inversion. *)
Definition lines0 (e : SortingError) : list Event :=
  [ Console Stderr None
      ("Sorting error detected at position "
       ++ show (Z.of_nat (position e)) ++ ":");
    Console Stderr None
      ("  " ++ title (article1 e) ++ " (" ++ timeText (article1 e) ++ ")");
    Console Stderr None
      ("  " ++ title (article2 e) ++ " (" ++ timeText (article2 e) ++ ")") ].

(** The error a row makes the collection throw, if any: that of its
    title, else that of its age. *)
Definition first_error (row : Row) : option Error :=
  match title_text row with
  | inl e => Some e
  | inr _ =>
      match age_text row with
      | inl e => Some e
      | inr _ => None
      end
  end.

(** The world in which the [try] of [validateHNSorting] begins: the
    start time read, the browser launched. *)
Definition launched (env : Env) (w : World) : World :=
  snd ((startTime <- Date_now env ;; chromium_launch env) w).

(** The same for the earlier variant, which reads no start time. *)
Definition launched0 (env : Env) (w : World) : World :=
  snd (chromium_launch env w).

(** [m] neither tries a screenshot nor writes a file. *)
Definition quiet {A} (m : M A) : Prop :=
  forall w,
    shots (snd (m w)) = shots w
    /\ files (trace (snd (m w))) = files (trace w).

(** [m] writes at most one file, and when it writes one it returns. *)
Definition one_file {A} (m : M A) : Prop :=
  forall w,
    files (trace (snd (m w))) = files (trace w)
    \/ (exists f a,
          files (trace (snd (m w))) = (files (trace w) ++ [f])%list
          /\ fst (m w) = Ok a).

(** The [Date] that [parseTimeAgo] of [src/index.js] returns for a label
    when the clock reads [t0]. *)
Definition instant_at (t0 : Z) (label : string) : Date :=
  match fst (parseTimeAgo (frozen t0 []) label start) with
  | Ok d => d
  | Throw _ => InvalidDate
  end.

(** The entry collected for a row with these texts when the clock
    reads [t0]. *)
Definition entry_at (t0 : Z) (texts : string * string) : Article :=
  {| title := fst texts; timeText := snd texts;
     timestamp := instant_at t0 (snd texts) |}.

(** Lines 73-117 of [src/index.js]: what the body of [try] does with
    the entries once collected (see [validate_body_collected]). *)
Definition validate_articles (env : Env) (startTime : Z)
           (articles : list Article) : M unit :=
  logger_info env ("Collected " ++ show (Z.of_nat (List.length articles))
                   ++ " articles") ;;
  verdict <- verify env articles ;;
  let (isSorted, sortingErrors) := verdict in
  now <- Date_now env ;;
  let executionTime := now - startTime in
  if isSorted then
    logger_info env
      ("✅ Validation passed: Articles are correctly sorted from newest to oldest ("
       ++ show executionTime ++ "ms)")
  else
    logger_error env
      "❌ Validation failed: Articles are not properly sorted" ;;
    logger_error env "Sorting errors:" ;;
    report env sortingErrors ;;
    screenshotPath <- captureScreenshot env "sorting_failure" ;;
    logger_info env ("Screenshot saved to: " ++ screenshotPath).

(* ================================================================= *)
(** ** Character classes and the pattern *)

Ltac by_cases_on c :=
  destruct c as [[] [] [] [] [] [] [] []]; vm_compute; congruence.

Lemma digit_not_space c : isDigit c = true -> isSpace c = false.
Proof. by_cases_on c. Qed.

Lemma digit_not_letter c : isDigit c = true -> isLetter c = false.
Proof. by_cases_on c. Qed.

Lemma space_not_digit c : isSpace c = true -> isDigit c = false.
Proof. by_cases_on c. Qed.

Lemma space_not_letter c : isSpace c = true -> isLetter c = false.
Proof. by_cases_on c. Qed.

Lemma letter_not_digit c : isLetter c = true -> isDigit c = false.
Proof. by_cases_on c. Qed.

Lemma letter_not_space c : isLetter c = true -> isSpace c = false.
Proof. by_cases_on c. Qed.

Lemma digit_radix10 c :
  isDigit c = true -> radix_digit 10 c = Some (Z.of_N (code c) - 48).
Proof. by_cases_on c. Qed.

Lemma span_app p a b :
  every p a = true -> first_not p b = true -> span p (a ++ b) = (a, b).
Proof.
  induction a as [|c a IH]; simpl; intros Ha Hb.
  - destruct b as [|c b]; simpl in *; [reflexivity|].
    destruct (p c); [discriminate|reflexivity].
  - apply andb_true_iff in Ha as [Hc Ha].
    rewrite Hc, (IH Ha Hb). reflexivity.
Qed.

Lemma first_not_app p q a b :
  (forall c, q c = true -> p c = false) ->
  (0 < String.length a)%nat -> every q a = true ->
  first_not p (a ++ b) = true.
Proof.
  intros Hpq Hlen Ha. destruct a as [|c a]; simpl in *; [lia|].
  apply andb_true_iff in Ha as [Hc _]. now rewrite (Hpq c Hc).
Qed.

Lemma regex_match_eq s :
  regex_match s =
  match match_here s with
  | Some m => Some m
  | None =>
      match s with
      | EmptyString => None
      | String _ s' => regex_match s'
      end
  end.
Proof. destruct s; reflexivity. Qed.

Lemma match_here_digits_word number gap unit rest :
  (0 < String.length number)%nat -> every isDigit number = true ->
  every isSpace gap = true ->
  (0 < String.length unit)%nat -> every isLetter unit = true ->
  first_not isLetter rest = true ->
  match_here (number ++ gap ++ unit ++ rest) = Some (number, unit).
Proof.
  intros Hn Hd Hg Hu Hl Hr. unfold match_here.
  assert (Hgap : first_not isSpace (unit ++ rest) = true)
    by exact (first_not_app isSpace isLetter unit rest letter_not_space Hu Hl).
  assert (Hnum : first_not isDigit (gap ++ unit ++ rest) = true).
  { destruct gap as [|c gap].
    - exact (first_not_app isDigit isLetter unit rest letter_not_digit Hu Hl).
    - simpl in *. apply andb_true_iff in Hg as [Hc _].
      now rewrite (space_not_digit c Hc). }
  rewrite (span_app _ _ _ Hd Hnum).
  destruct number as [|c number]; [simpl in Hn; lia|].
  rewrite (span_app _ _ _ Hg Hgap), (span_app _ _ _ Hl Hr).
  destruct unit; [simpl in Hu; lia|reflexivity].
Qed.

Lemma regex_match_skip pre s m :
  every notDigit pre = true -> match_here s = Some m ->
  regex_match (pre ++ s) = Some m.
Proof.
  intros Hpre Hs. induction pre as [|c pre IH]; simpl append.
  - rewrite regex_match_eq, Hs. reflexivity.
  - simpl in Hpre. apply andb_true_iff in Hpre as [Hc Hpre].
    rewrite regex_match_eq. unfold match_here at 1. simpl span.
    unfold notDigit in Hc. apply negb_true_iff in Hc. rewrite Hc.
    auto.
Qed.

Lemma regex_match_no_digit s :
  every notDigit s = true -> regex_match s = None.
Proof.
  induction s as [|c s IH]; simpl every; intros H.
  - reflexivity.
  - apply andb_true_iff in H as [Hc H].
    rewrite regex_match_eq. unfold match_here at 1. simpl span.
    unfold notDigit in Hc. apply negb_true_iff in Hc. rewrite Hc.
    auto.
Qed.

Lemma span_every p s : every p (fst (span p s)) = true.
Proof.
  induction s as [|c s IH]; [reflexivity|]. simpl.
  destruct (p c) eqn:Hc; [|reflexivity].
  destruct (span p s) as [a b]. simpl in *. now rewrite Hc, IH.
Qed.

Lemma match_here_groups s number unit :
  match_here s = Some (number, unit) ->
  (0 < String.length number)%nat /\ every isDigit number = true
  /\ (0 < String.length unit)%nat /\ every isLetter unit = true.
Proof.
  unfold match_here. intros H.
  pose proof (span_every isDigit s) as Hd.
  destruct (span isDigit s) as [n s1]. simpl in Hd.
  destruct n as [|c n]; [discriminate|].
  destruct (span isSpace s1) as [g s2].
  pose proof (span_every isLetter s2) as Hl.
  destruct (span isLetter s2) as [u s3]. simpl in Hl.
  destruct u as [|c' u]; [discriminate|].
  inversion H; subst. repeat split; simpl; try lia; assumption.
Qed.

(** What the two groups of a match are made of. *)
Lemma regex_match_groups s number unit :
  regex_match s = Some (number, unit) ->
  (0 < String.length number)%nat /\ every isDigit number = true
  /\ (0 < String.length unit)%nat /\ every isLetter unit = true.
Proof.
  induction s as [|c s IH]; rewrite regex_match_eq.
  - destruct (match_here "") as [m|] eqn:Hm; [|discriminate].
    intros H; inversion H; subst. now apply match_here_groups with "".
  - destruct (match_here (String c s)) as [m|] eqn:Hm; [|exact IH].
    intros H; inversion H; subst.
    now apply match_here_groups with (String c s).
Qed.

(** X18.  The pattern in a label made of a part without digits, a run
    of digits, white space (or none), a word, and a rest that does not
    go on with a letter: the groups are the digits and the word; what
    stands before and behind is ignored. *)
Lemma regex_match_digits_word pre number gap unit rest :
  every notDigit pre = true ->
  (0 < String.length number)%nat -> every isDigit number = true ->
  every isSpace gap = true ->
  (0 < String.length unit)%nat -> every isLetter unit = true ->
  first_not isLetter rest = true ->
  regex_match (pre ++ number ++ gap ++ unit ++ rest) = Some (number, unit).
Proof.
  intros Hpre Hn Hd Hg Hu Hl Hr.
  apply regex_match_skip; [assumption|].
  now apply match_here_digits_word.
Qed.

(* ================================================================= *)
(** ** [parseInt] on a run of digits *)

Lemma read_digits_magnitude number acc rest :
  every isDigit number = true -> first_not isDigit rest = true ->
  read_digits 10 acc (number ++ rest)
  = acc * 10 ^ Z.of_nat (String.length number) + magnitude number.
Proof.
  revert acc. induction number as [|c number IH]; intros acc Hd Hr.
  - simpl. destruct rest as [|c rest]; simpl; [lia|].
    simpl in Hr. apply negb_true_iff in Hr.
    assert (radix_digit 10 c = None) as -> by (revert Hr; by_cases_on c).
    lia.
  - simpl in Hd. apply andb_true_iff in Hd as [Hc Hd].
    simpl append. simpl read_digits. rewrite (digit_radix10 c Hc).
    rewrite (IH _ Hd Hr). simpl String.length. simpl magnitude.
    rewrite Nat2Z.inj_succ, Z.pow_succ_r by lia. ring.
Qed.

Lemma take_sign_digit c s :
  isDigit c = true -> take_sign (String c s) = (1, String c s).
Proof. by_cases_on c. Qed.

Lemma digit_not_x c : isDigit c = true -> isX c = false.
Proof. by_cases_on c. Qed.

Lemma space_not_x c : isSpace c = true -> isX c = false.
Proof. by_cases_on c. Qed.

Lemma take_radix_digit c s :
  isDigit c = true -> first_not isX s = true ->
  take_radix (String c s) = (10, String c s).
Proof.
  destruct s as [|c' s]; [by_cases_on c|].
  simpl first_not. intros Hc Hx. apply negb_true_iff in Hx.
  revert Hc.
  destruct c as [[] [] [] [] [] [] [] []];
    try (vm_compute; congruence).
  intros _. revert Hx. by_cases_on c'.
Qed.

Lemma parseInt_digits number rest :
  (0 < String.length number)%nat -> every isDigit number = true ->
  first_not (fun c => negb (isSpace c)) rest = true ->
  parseInt (number ++ rest) = Num (magnitude number).
Proof.
  intros Hn Hd Hr.
  assert (Hrest : first_not isDigit rest = true).
  { destruct rest as [|c rest]; [reflexivity|]. simpl in *.
    rewrite negb_involutive in Hr. now rewrite (space_not_digit c Hr). }
  pose proof (read_digits_magnitude number 0 rest Hd Hrest) as Hread.
  destruct number as [|c number]; [simpl in Hn; lia|].
  simpl in Hd. apply andb_true_iff in Hd as [Hc Hd].
  assert (Hx : first_not isX (number ++ rest) = true).
  { destruct number as [|c' number].
    - destruct rest as [|c' rest]; [reflexivity|]. simpl in *.
      rewrite negb_involutive in Hr. now rewrite (space_not_x c' Hr).
    - simpl in *. apply andb_true_iff in Hd as [Hc' _].
      now rewrite (digit_not_x c' Hc'). }
  unfold parseInt. simpl append in *. simpl span.
  rewrite (digit_not_space c Hc), (take_sign_digit c _ Hc),
    (take_radix_digit c _ Hc Hx).
  unfold digits_or_NaN. rewrite (digit_radix10 c Hc), Hread.
  f_equal. lia.
Qed.

Lemma append_empty s : s ++ "" = s.
Proof. induction s as [|c s IH]; simpl; [reflexivity | now rewrite IH]. Qed.

Lemma parseInt_number number :
  (0 < String.length number)%nat -> every isDigit number = true ->
  parseInt number = Num (magnitude number).
Proof.
  intros Hn Hd. rewrite <- (append_empty number) at 1.
  now apply parseInt_digits.
Qed.

(* ================================================================= *)
(** ** The unit table *)

Lemma lower_letter c : isLetter c = true -> isLower (lower c) = true.
Proof. by_cases_on c. Qed.

Lemma toLowerCase_letters s :
  every isLetter s = true -> every isLower (toLowerCase s) = true.
Proof.
  induction s as [|c s IH]; simpl; intros H; [reflexivity|].
  apply andb_true_iff in H as [Hc H].
  now rewrite (lower_letter c Hc), (IH H).
Qed.

Lemma replace_final_s_every p s :
  every p s = true -> every p (replace_final_s s) = true.
Proof.
  induction s as [|c s IH]; intros H; [reflexivity|].
  simpl in H. apply andb_true_iff in H as [Hc H].
  destruct s as [|c' s].
  - simpl. destruct (Ascii.eqb c "s"); simpl; [reflexivity|].
    now rewrite Hc.
  - change (replace_final_s (String c (String c' s)))
      with (String c (replace_final_s (String c' s))).
    change (p c && every p (replace_final_s (String c' s)) = true).
    now rewrite Hc, (IH H).
Qed.

Lemma known_unit_multiplier u m :
  In (u, m)
     [ ("minute", 60000); ("hour", 3600000); ("day", 86400000);
       ("month", 2592000000); ("year", 31536000000) ] ->
  get multipliers u = Number (Num m) /\ m <> 0.
Proof.
  simpl. intros [H|[H|[H|[H|[H|[]]]]]]; inversion H; subst;
    (split; [reflexivity | lia]).
Qed.

(** Of all the property names an object literal inherits, only
    "constructor" is a word of lower-case letters. *)
Lemma unknown_unit_undefined u :
  every isLower u = true ->
  ~ In u [ "minute"; "hour"; "day"; "month"; "year" ] ->
  u <> "constructor" ->
  get multipliers u = Undefined.
Proof.
  intros Hlow Hnot Hc. unfold get.
  assert (Hown : own_property multipliers u = None).
  { cbv [own_property multipliers].
    repeat match goal with
           | |- context [String.eqb ?k u] =>
               destruct (String.eqb_spec k u) as [E|_];
               [exfalso; apply Hnot; rewrite <- E; simpl; tauto|]
           end.
    reflexivity. }
  rewrite Hown.
  assert (Hproto : existsb (String.eqb u) Object_prototype = false).
  { cbv [existsb Object_prototype].
    repeat match goal with
           | |- context [String.eqb u ?k] =>
               destruct (String.eqb_spec u k) as [E|_];
               [exfalso; first [ now apply Hc
                               | rewrite E in Hlow; vm_compute in Hlow;
                                 discriminate ]|]
           end.
    reflexivity. }
  now rewrite Hproto.
Qed.

(* ================================================================= *)
(** ** The parser of [src/index.js] *)

Section Parser.

Variable env : Env.

Lemma logger_info_run msg w :
  logger_info env msg w =
  (Ok tt,
   {| reads := S (reads w); gotos := gotos w; alls := alls w;
      shots := shots w; page := page w;
      trace := (trace w ++ [Console Stdout (Some (clock env (reads w)))
                              ("INFO: " ++ msg)])%list |}).
Proof. reflexivity. Qed.

(** When the pattern is found and the unit is in the table, the result
    is [new Date(now - value * multiplier)]. *)
Lemma parseTimeAgo_match w label number unit u m :
  regex_match label = Some (number, unit) ->
  (0 < String.length number)%nat -> every isDigit number = true ->
  replace_final_s (toLowerCase unit) = u ->
  In (u, m)
     [ ("minute", 60000); ("hour", 3600000); ("day", 86400000);
       ("month", 2592000000); ("year", 31536000000) ] ->
  fst (parseTimeAgo env label w)
  = Ok (Date_of_number (Num (clock env (reads w) - magnitude number * m))).
Proof.
  intros Hm Hn Hd Hu Hin.
  destruct (known_unit_multiplier u m Hin) as [Hget Hm0].
  unfold parseTimeAgo, new_Date, bind, Date_now, ret.
  rewrite Hm, Hu, Hget, (parseInt_number number Hn Hd).
  change (truthy (Number (Num m))) with (negb (m =? 0)).
  apply Z.eqb_neq in Hm0. rewrite Hm0. reflexivity.
Qed.

(** X4.  When the pattern is found and the unit is neither in the
    table nor the one inherited name, the anomaly is logged on stderr,
    with the unit as written and the whole label, and [now] is
    returned. *)
Lemma parseTimeAgo_unknown_unit w label number unit :
  regex_match label = Some (number, unit) ->
  ~ In (replace_final_s (toLowerCase unit))
       [ "minute"; "hour"; "day"; "month"; "year" ] ->
  replace_final_s (toLowerCase unit) <> "constructor" ->
  fst (parseTimeAgo env label w) = Ok (TimeValue (clock env (reads w)))
  /\ trace (snd (parseTimeAgo env label w))
     = (trace w
        ++ [Console Stderr (Some (clock env (S (reads w))))
              ("ERROR: Unknown time unit: " ++ unit ++ " in " ++ dq
               ++ label ++ dq)])%list.
Proof.
  intros Hm Hnot Hc.
  destruct (regex_match_groups _ _ _ Hm) as (_ & _ & _ & Hl).
  assert (Hget : get multipliers (replace_final_s (toLowerCase unit))
                 = Undefined).
  { apply unknown_unit_undefined; auto.
    apply replace_final_s_every, toLowerCase_letters, Hl. }
  unfold parseTimeAgo, new_Date, bind, Date_now, ret.
  rewrite Hm, Hget. split; reflexivity.
Qed.

(** X3.  A label without any digit never matches the pattern: the
    parser of [src/index.js] returns [now], having taken one clock
    reading and logged nothing. *)
Lemma parseTimeAgo_no_digit w label :
  every notDigit label = true ->
  parseTimeAgo env label w
  = (Ok (TimeValue (clock env (reads w))), snd (Date_now env w)).
Proof.
  intros H. unfold parseTimeAgo, new_Date, bind, Date_now, ret.
  now rewrite (regex_match_no_digit label H).
Qed.

End Parser.





(** C4, evaluated at the failing input.  The unit of
    "3 constructors ago" is not in the table, but [multipliers] inherits
    a property of that name: the lookup is truthy, nothing is logged,
    and the result is the Invalid Date instead of [now]. *)
Theorem parseTimeAgo_inherited_unit env w :
  regex_match "3 constructors ago" = Some ("3", "constructors") /\
  ~ In (replace_final_s (toLowerCase "constructors"))
       [ "minute"; "hour"; "day"; "month"; "year" ] /\
  fst (parseTimeAgo env "3 constructors ago" w) = Ok InvalidDate /\
  trace (snd (parseTimeAgo env "3 constructors ago" w)) = trace w.
Proof.
  repeat split; try reflexivity.
  vm_compute. intros [H|[H|[H|[H|[H|[]]]]]]; discriminate H.
Qed.

(** C5, evaluated at the failing input.  For "a day ago" the earlier
    variant multiplies [NaN] and returns the Invalid Date; the parser of
    [src/index.js] returns [now]. *)
Theorem parseTimeAgo0_no_digit_unit env w :
  every notDigit "a day ago" = true /\
  fst (parseTimeAgo0 env "a day ago" w) = Ok InvalidDate /\
  fst (parseTimeAgo env "a day ago" w)
  = Ok (TimeValue (clock env (reads w))).
Proof. repeat split; reflexivity. Qed.

(** C7.  The instant [parseTimeAgo] returns is a function of the label
    and of the clock reading it takes: whatever else the two worlds
    hold, equal labels and equal readings give equal results. *)
Theorem parseTimeAgo_deterministic env1 env2 w1 w2 label :
  clock env1 (reads w1) = clock env2 (reads w2) ->
  fst (parseTimeAgo env1 label w1) = fst (parseTimeAgo env2 label w2).
Proof.
  intros Hnow. unfold parseTimeAgo, new_Date, bind, Date_now, ret.
  rewrite Hnow.
  destruct (regex_match label) as [[number unit]|]; [|reflexivity].
  destruct (negb (truthy (get multipliers
                            (replace_final_s (toLowerCase unit)))));
    reflexivity.
Qed.

Lemma parseTimeAgo_deterministic_witness :
  clock (ticking 1000 []) (reads start)
  = clock (frozen 1000 []) (reads (snd (Date_now (frozen 1000 []) start)))
  /\ fst (parseTimeAgo (ticking 1000 []) "3 fortnights ago" start)
     = fst (parseTimeAgo (frozen 1000 []) "3 fortnights ago"
              (snd (Date_now (frozen 1000 []) start))).
Proof.
  split; [reflexivity|].
  apply (parseTimeAgo_deterministic (ticking 1000 []) (frozen 1000 [])
           start (snd (Date_now (frozen 1000 []) start))).
  reflexivity.
Defined.

(* ================================================================= *)
(** ** The two parsers side by side *)

Lemma includes_eq needle hay :
  includes needle hay =
  String.prefix needle hay ||
  match hay with
  | EmptyString => false
  | String _ hay' => includes needle hay'
  end.
Proof. destruct hay; reflexivity. Qed.

Lemma includes_skip_digits needle number s :
  (0 < String.length needle)%nat -> first_not isDigit needle = true ->
  every isDigit number = true ->
  includes needle (number ++ s) = includes needle s.
Proof.
  intros Hlen Hfirst. induction number as [|c number IH]; intros Hd.
  - reflexivity.
  - simpl in Hd. apply andb_true_iff in Hd as [Hc Hd].
    simpl append. rewrite includes_eq, (IH Hd).
    destruct needle as [|n needle]; [simpl in Hlen; lia|].
    simpl in Hfirst. apply negb_true_iff in Hfirst.
    simpl String.prefix.
    destruct (ascii_dec n c) as [->|_]; [congruence|reflexivity].
Qed.

Ltac eval_includes :=
  repeat match goal with
         | |- context [includes ?a ?b] =>
             let v := eval vm_compute in (includes a b) in
             change (includes a b) with v
         end.

Section Variants.

Variable env : Env.

(** The earlier variant on a label [<digits> <unit>] whose unit is
    written in lower case, with or without " ago" behind it. *)
Lemma parseTimeAgo0_lower_case w number unit rest m :
  (0 < String.length number)%nat -> every isDigit number = true ->
  In (unit, m)
     [ ("minute", 60000); ("minutes", 60000);
       ("hour", 3600000); ("hours", 3600000);
       ("day", 86400000); ("days", 86400000);
       ("month", 2592000000); ("months", 2592000000);
       ("year", 31536000000); ("years", 31536000000) ] ->
  In rest [ ""; " ago" ] ->
  fst (parseTimeAgo0 env (number ++ " " ++ unit ++ rest) w)
  = Ok (Date_of_number (Num (clock env (reads w) - magnitude number * m))).
Proof.
  intros Hn Hd Hunit Hrest.
  unfold parseTimeAgo0, new_Date, bind, Date_now, ret.
  rewrite (parseInt_digits number (" " ++ unit ++ rest) Hn Hd eq_refl).
  rewrite !(includes_skip_digits _ number _) by (auto; vm_compute; lia).
  simpl in Hunit, Hrest.
  destruct Hrest as [<-|[<-|[]]];
    repeat (destruct Hunit as [Hunit|Hunit];
            [ inversion Hunit; subst unit m; eval_includes;
              cbv beta iota; cbn [fst js_mul js_sub getTime];
              do 3 f_equal; lia |]);
    destruct Hunit.
Qed.

(** The parser of [src/index.js] on the same labels. *)
Lemma parseTimeAgo_lower_case w number unit rest m :
  (0 < String.length number)%nat -> every isDigit number = true ->
  In (unit, m)
     [ ("minute", 60000); ("minutes", 60000);
       ("hour", 3600000); ("hours", 3600000);
       ("day", 86400000); ("days", 86400000);
       ("month", 2592000000); ("months", 2592000000);
       ("year", 31536000000); ("years", 31536000000) ] ->
  In rest [ ""; " ago" ] ->
  fst (parseTimeAgo env (number ++ " " ++ unit ++ rest) w)
  = Ok (Date_of_number (Num (clock env (reads w) - magnitude number * m))).
Proof.
  intros Hn Hd Hunit Hrest.
  assert (Hshape : regex_match (number ++ " " ++ unit ++ rest)
                   = Some (number, unit)
                   /\ In (replace_final_s (toLowerCase unit), m)
                        [ ("minute", 60000); ("hour", 3600000);
                          ("day", 86400000); ("month", 2592000000);
                          ("year", 31536000000) ]).
  { simpl in Hunit, Hrest.
    destruct Hrest as [<-|[<-|[]]];
      repeat (destruct Hunit as [Hunit|Hunit];
              [ inversion Hunit; subst unit m; split;
                [ apply (regex_match_skip "");
                  [ reflexivity
                  | apply match_here_digits_word;
                    first [assumption | reflexivity | vm_compute; lia] ]
                | vm_compute; tauto ] |]);
      destruct Hunit. }
  destruct Hshape as [Hmatch Hin].
  now apply parseTimeAgo_match with (unit := unit)
                                    (u := replace_final_s (toLowerCase unit)).
Qed.

End Variants.

(** C10 (as amended).  On a label [<digits> <unit>], with or without
    " ago" behind it, whose unit is written in lower case (minute(s),
    hour(s), day(s), month(s), year(s)), the two parsers, reading the
    same clock, return the same [Date]: the instant
    [now - n * multiplier] when it lies within the range of [Date], the
    Invalid Date otherwise. *)
Theorem parsers_agree_lower_case env w number unit rest m :
  (0 < String.length number)%nat -> every isDigit number = true ->
  In (unit, m)
     [ ("minute", 60000); ("minutes", 60000);
       ("hour", 3600000); ("hours", 3600000);
       ("day", 86400000); ("days", 86400000);
       ("month", 2592000000); ("months", 2592000000);
       ("year", 31536000000); ("years", 31536000000) ] ->
  In rest [ ""; " ago" ] ->
  fst (parseTimeAgo env (number ++ " " ++ unit ++ rest) w)
  = Ok (Date_of_number (Num (clock env (reads w) - magnitude number * m)))
  /\ fst (parseTimeAgo0 env (number ++ " " ++ unit ++ rest) w)
     = Ok (Date_of_number (Num (clock env (reads w) - magnitude number * m))).
Proof.
  intros Hn Hd Hunit Hrest. split.
  - now apply parseTimeAgo_lower_case.
  - now apply parseTimeAgo0_lower_case.
Qed.

Lemma parsers_agree_lower_case_witness :
  (0 < String.length "45")%nat /\ every isDigit "45" = true /\
  fst (parseTimeAgo (ticking 1793664000000 []) "45 hours ago" start)
  = Ok (TimeValue (1793664000000 - 45 * 3600000))
  /\ fst (parseTimeAgo0 (ticking 1793664000000 []) "45 hours ago" start)
     = Ok (TimeValue (1793664000000 - 45 * 3600000)).
Proof.
  split; [vm_compute; lia|]. split; [reflexivity|].
  apply (parsers_agree_lower_case (ticking 1793664000000 []) start
           "45" "hours" " ago" 3600000);
    [vm_compute; lia | reflexivity | simpl; tauto | simpl; tauto].
Defined.

(** C10, counterexample.  "5 Minutes" has the form and its unit
    normalises to minute; the parser of [src/index.js] returns
    [now - 5 * 60000], the earlier variant, whose test for "minute" is
    case-sensitive, returns [now]. *)
Lemma parsers_differ_on_capital :
  replace_final_s (toLowerCase "Minutes") = "minute" /\
  fst (parseTimeAgo (ticking 1793664000000 []) "5 Minutes" start)
  = Ok (TimeValue (1793664000000 - 5 * 60000)) /\
  fst (parseTimeAgo0 (ticking 1793664000000 []) "5 Minutes" start)
  = Ok (TimeValue 1793664000000) /\
  fst (parseTimeAgo (ticking 1793664000000 []) "5 Minutes" start)
  <> fst (parseTimeAgo0 (ticking 1793664000000 []) "5 Minutes" start).
Proof.
  repeat split; try reflexivity. vm_compute. congruence.
Qed.

(* ================================================================= *)
(** ** The ordering check of [src/index.js] *)

Lemma js_gt_later a b : js_gt (getTime a) (getTime b) = later a b.
Proof. destruct a, b; reflexivity. Qed.

Lemma later_not_equal a b :
  later a b = true -> js_eq (getTime a) (getTime b) = false.
Proof.
  destruct a as [x|], b as [y|]; simpl; try discriminate.
  intros H. apply Z.ltb_lt in H. apply Z.eqb_neq. lia.
Qed.

Lemma non_increasing_nth articles :
  non_increasing articles = true ->
  forall j prev curr,
    nth_error articles j = Some prev ->
    nth_error articles (S j) = Some curr ->
    later (timestamp curr) (timestamp prev) = false.
Proof.
  induction articles as [|a rest IH]; intros H j prev curr Hp Hc.
  - destruct j; discriminate.
  - destruct rest as [|b rest]; [destruct j; discriminate|].
    change (negb (later (timestamp b) (timestamp a))
            && non_increasing (b :: rest) = true) in H.
    apply andb_true_iff in H as [Hab Hrest].
    destruct j as [|j].
    + simpl in Hp, Hc. inversion Hp; inversion Hc; subst.
      now apply negb_true_iff.
    + exact (IH Hrest j prev curr Hp Hc).
Qed.

Lemma nth_non_increasing articles :
  (forall j prev curr,
      nth_error articles j = Some prev ->
      nth_error articles (S j) = Some curr ->
      later (timestamp curr) (timestamp prev) = false) ->
  non_increasing articles = true.
Proof.
  induction articles as [|a rest IH]; intros H; [reflexivity|].
  destruct rest as [|b rest]; [reflexivity|].
  change (negb (later (timestamp b) (timestamp a))
          && non_increasing (b :: rest) = true).
  apply andb_true_iff. split.
  - apply negb_true_iff. exact (H 0%nat a b eq_refl eq_refl).
  - apply IH. intros j prev curr Hp Hc. exact (H (S j) prev curr Hp Hc).
Qed.

Lemma Math_round_minutes d :
  Math_round (inject_Z d / 1000 / 60) = (d + 30000) / 60000.
Proof.
  unfold Math_round, Qfloor, inject_Z. cbn.
  replace (d * 1 * 1 * 2 + 60000) with ((d + 30000) * 2) by lia.
  change 120000 with (60000 * 2).
  apply Z.div_mul_cancel_r; lia.
Qed.

Section Check.

Variable env : Env.

(** From round [i] on, no later pair is an inversion: the loop runs to
    its end and leaves [isSorted] true and [sortingErrors] empty. *)
Lemma sort_loop_sorted articles :
  forall todo i w,
    (1 <= i)%nat -> (i + todo = List.length articles)%nat ->
    (forall j prev curr,
        (i <= S j)%nat ->
        nth_error articles j = Some prev ->
        nth_error articles (S j) = Some curr ->
        later (timestamp curr) (timestamp prev) = false) ->
    fst (sort_loop env articles i todo w) = Ok (true, []).
Proof.
  induction todo as [|todo IH]; intros i w Hi Hlen Hsorted; [reflexivity|].
  simpl sort_loop.
  destruct (nth_error articles i) as [curr|] eqn:Hcurr;
    [|apply nth_error_None in Hcurr; lia].
  destruct (nth_error articles (i - 1)) as [prev|] eqn:Hprev;
    [|apply nth_error_None in Hprev; lia].
  assert (Hpair : later (timestamp curr) (timestamp prev) = false).
  { apply (Hsorted (i - 1)%nat); [lia|assumption|].
    replace (S (i - 1)) with i by lia. assumption. }
  assert (Hnext : forall w', fst (sort_loop env articles (S i) todo w')
                             = Ok (true, [])).
  { intros w'. apply IH; [lia|lia|].
    intros j p c Hj. apply Hsorted. lia. }
  rewrite js_gt_later, Hpair.
  destruct (js_eq (getTime (timestamp curr)) (getTime (timestamp prev)));
    [|apply Hnext].
  unfold bind. rewrite logger_info_run. apply Hnext.
Qed.

(** The pair at [k] is the first inversion at or after round [i]: the
    loop stops there with that one error. *)
Lemma sort_loop_first_inversion articles k prev curr :
  nth_error articles (k - 1) = Some prev ->
  nth_error articles k = Some curr ->
  later (timestamp curr) (timestamp prev) = true ->
  forall todo i w,
    (1 <= i <= k)%nat -> (i + todo = List.length articles)%nat ->
    (forall j p c,
        (i <= S j < k)%nat ->
        nth_error articles j = Some p ->
        nth_error articles (S j) = Some c ->
        later (timestamp c) (timestamp p) = false) ->
    fst (sort_loop env articles i todo w)
    = Ok (false,
          [ {| position := k; article1 := prev; article2 := curr;
               timeDiff := minutes_between (timestamp curr)
                             (timestamp prev) |} ]).
Proof.
  intros Hprev Hcurr Hlater.
  assert (Hk : (k < List.length articles)%nat)
    by (apply nth_error_Some; congruence).
  induction todo as [|todo IH]; intros i w Hi Hlen Hbefore; [lia|].
  simpl sort_loop.
  destruct (Nat.eq_dec i k) as [->|Hne].
  - rewrite Hcurr, Hprev, (later_not_equal _ _ Hlater), js_gt_later,
      Hlater.
    reflexivity.
  - destruct (nth_error articles i) as [c|] eqn:Hc;
      [|apply nth_error_None in Hc; lia].
    destruct (nth_error articles (i - 1)) as [p|] eqn:Hp;
      [|apply nth_error_None in Hp; lia].
    assert (Hpair : later (timestamp c) (timestamp p) = false).
    { apply (Hbefore (i - 1)%nat); [lia|assumption|].
      replace (S (i - 1)) with i by lia. assumption. }
    assert (Hnext : forall w',
               fst (sort_loop env articles (S i) todo w')
               = Ok (false,
                     [ {| position := k; article1 := prev;
                          article2 := curr;
                          timeDiff := minutes_between (timestamp curr)
                                        (timestamp prev) |} ])).
    { intros w'. apply IH; [lia|lia|].
      intros j p' c' Hj. apply Hbefore. lia. }
    rewrite js_gt_later, Hpair.
    destruct (js_eq (getTime (timestamp c)) (getTime (timestamp p)));
      [|apply Hnext].
    unfold bind. rewrite logger_info_run. apply Hnext.
Qed.

Lemma verify_first_inversion articles w k prev curr :
  (1 <= k)%nat ->
  nth_error articles (k - 1) = Some prev ->
  nth_error articles k = Some curr ->
  later (timestamp curr) (timestamp prev) = true ->
  non_increasing (firstn k articles) = true ->
  fst (verify env articles w)
  = Ok (false,
        [ {| position := k; article1 := prev; article2 := curr;
             timeDiff := minutes_between (timestamp curr)
                           (timestamp prev) |} ]).
Proof.
  intros Hk Hprev Hcurr Hlater Hbefore.
  assert (Hlen : (k < List.length articles)%nat)
    by (apply nth_error_Some; congruence).
  unfold verify.
  apply sort_loop_first_inversion; auto; try lia.
  intros j p c Hj Hp Hc.
  apply (non_increasing_nth _ Hbefore j p c).
  - rewrite nth_error_firstn.
    destruct (Nat.ltb_spec j k); [assumption|lia].
  - rewrite nth_error_firstn.
    destruct (Nat.ltb_spec (S j) k); [assumption|lia].
Qed.

End Check.



(** C2.  When no entry is strictly later than the entry before it
    (equal instants allowed), the check ends with [isSorted] true and no
    error recorded; so it does on every sequence of length 0 or 1. *)
Theorem verify_sorted env w articles :
  (non_increasing articles = true ->
   fst (verify env articles w) = Ok (true, []))
  /\ ((List.length articles <= 1)%nat ->
      fst (verify env articles w) = Ok (true, [])).
Proof.
  assert (Hmain : non_increasing articles = true ->
                  fst (verify env articles w) = Ok (true, [])).
  { intros Hsorted. unfold verify.
    destruct articles as [|a rest]; [reflexivity|].
    apply sort_loop_sorted; [lia | simpl; lia |].
    intros j prev curr _. now apply non_increasing_nth. }
  split; [exact Hmain|].
  intros Hlen. apply Hmain.
  destruct articles as [|a [|b rest]]; try reflexivity.
  simpl in Hlen. lia.
Qed.

Lemma verify_sorted_witness :
  non_increasing (three_entries 1793664000000 10 10 60) = true /\
  fst (verify (frozen 1793664000000 []) (three_entries 1793664000000 10 10 60)
         start)
  = Ok (true, []).
Proof.
  split; [reflexivity|].
  apply (proj1 (verify_sorted (frozen 1793664000000 []) start
                  (three_entries 1793664000000 10 10 60))).
  reflexivity.
Defined.



(* ================================================================= *)
(** ** The run: session, retries, clock *)

Lemma session_open_snoc tr e :
  session_open (tr ++ [e])
  = match e with
    | Launch => true
    | Close => false
    | _ => session_open tr
    end.
Proof. unfold session_open. rewrite fold_left_app. reflexivity. Qed.

Lemma attempts_snoc tr e :
  attempts (tr ++ [e])
  = (attempts tr
     ++ match e with
        | Goto | LocateAll | Sleep _ => [e]
        | _ => []
        end)%list.
Proof.
  unfold attempts. rewrite filter_app. simpl. now destruct e.
Qed.

Section Run.

Variable env : Env.

(** However [m] ends, [finally] runs [validate_finally] after it: the
    trace ends with the close and the closing log line. *)
Lemma finally_validate_finally {A} (m : M A) t w :
  exists tr stamp text,
    trace (snd (finally m (validate_finally env t) w))
    = (tr ++ [Close; Console Stdout (Some stamp) text])%list.
Proof.
  unfold finally. destruct (m w) as [r w1].
  exists (trace w1). eexists. eexists.
  cbn. rewrite <- app_assoc. reflexivity.
Qed.

Lemma finally_browser_close {A} (m : M A) w :
  exists tr,
    trace (snd (finally m browser_close w)) = (tr ++ [Close])%list.
Proof.
  unfold finally. destruct (m w) as [r w1].
  exists (trace w1). reflexivity.
Qed.

End Run.

(** C9.  Once the browser is launched, every run ends with the session
    closed, however the body of [try] ended: in [src/index.js] the last
    two events of the run are [browser.close()] and the line logged
    after it, in the earlier variant the last event is
    [browser.close()]. *)
Theorem browser_closed_on_every_path env w :
  launch env = None ->
  (exists tr stamp text,
      trace (snd (validateHNSorting env w))
      = (tr ++ [Close; Console Stdout (Some stamp) text])%list)
  /\ session_open (trace (snd (validateHNSorting env w))) = false
  /\ (exists tr,
         trace (snd (validateHNSorting0 env w)) = (tr ++ [Close])%list)
  /\ session_open (trace (snd (validateHNSorting0 env w))) = false.
Proof.
  intros Hlaunch.
  assert (H1 : exists tr stamp text,
             trace (snd (validateHNSorting env w))
             = (tr ++ [Close; Console Stdout (Some stamp) text])%list).
  { unfold validateHNSorting, chromium_launch, bind at 1 2 3.
    rewrite Hlaunch. cbn [Date_now outcome ret emit].
    apply finally_validate_finally. }
  assert (H2 : exists tr,
             trace (snd (validateHNSorting0 env w)) = (tr ++ [Close])%list).
  { unfold validateHNSorting0, chromium_launch, bind at 1 2.
    rewrite Hlaunch. cbn [outcome ret emit].
    apply finally_browser_close. }
  split; [exact H1|]. split; [|split; [exact H2|]].
  - destruct H1 as (tr & stamp & text & ->).
    change (tr ++ [Close; Console Stdout (Some stamp) text])%list
      with (tr ++ [Close] ++ [Console Stdout (Some stamp) text])%list.
    rewrite app_assoc, !session_open_snoc. reflexivity.
  - destruct H2 as (tr & ->). now rewrite session_open_snoc.
Qed.

Lemma browser_closed_on_every_path_witness :
  launch (offline 1793664000000 timeout_error) = None /\
  (exists tr stamp text,
      trace (snd (validateHNSorting (offline 1793664000000 timeout_error)
                    start))
      = (tr ++ [Close; Console Stdout (Some stamp) text])%list)
  /\ session_open
       (trace (snd (validateHNSorting (offline 1793664000000 timeout_error)
                      start))) = false
  /\ (exists tr,
         trace (snd (validateHNSorting0
                       (offline 1793664000000 timeout_error) start))
         = (tr ++ [Close])%list)
  /\ session_open
       (trace (snd (validateHNSorting0
                      (offline 1793664000000 timeout_error) start))) = false.
Proof.
  split; [reflexivity|].
  apply (browser_closed_on_every_path
           (offline 1793664000000 timeout_error) start).
  reflexivity.
Defined.

Section Retry.

Variable env : Env.

(** Three failed navigations in a row: [retry] pauses 1000 ms, then
    2000 ms, and throws the third error. *)
Lemma retry_goto_exhausted w e0 e1 e2 :
  goto env (gotos w) = Some e0 ->
  goto env (S (gotos w)) = Some e1 ->
  goto env (S (S (gotos w))) = Some e2 ->
  fst (retry env (page_goto env) CONFIG.maxRetries w) = Throw e2
  /\ attempts (trace (snd (retry env (page_goto env) CONFIG.maxRetries w)))
     = (attempts (trace w) ++ [Goto; Sleep 1000; Goto; Sleep 2000; Goto])%list
  /\ page (snd (retry env (page_goto env) CONFIG.maxRetries w)) = page w.
Proof.
  intros H0 H1 H2.
  unfold retry, CONFIG.maxRetries, retry_from, try_catch, bind, page_goto,
    logger_info, sleep, emit, Date_now, outcome, throw, ret.
  cbn. rewrite H0. cbn. rewrite H1. cbn. rewrite H2. cbn.
  repeat split.
  rewrite !attempts_snoc, <- !app_assoc. reflexivity.
Qed.

End Retry.

Section RunRetry.

Variable env : Env.

Lemma retry_all_exhausted w e0 e1 e2 :
  all env (alls w) = inl e0 ->
  all env (S (alls w)) = inl e1 ->
  all env (S (S (alls w))) = inl e2 ->
  fst (retry env (locator_all env) CONFIG.maxRetries w) = Throw e2
  /\ attempts (trace (snd (retry env (locator_all env) CONFIG.maxRetries w)))
     = (attempts (trace w)
        ++ [LocateAll; Sleep 1000; LocateAll; Sleep 2000; LocateAll])%list
  /\ page (snd (retry env (locator_all env) CONFIG.maxRetries w)) = page w.
Proof.
  intros H0 H1 H2.
  unfold retry, CONFIG.maxRetries, retry_from, try_catch, bind, locator_all,
    logger_info, sleep, emit, Date_now, outcome, throw, ret.
  cbn. rewrite H0. cbn. rewrite H1. cbn. rewrite H2. cbn.
  repeat split.
  rewrite !attempts_snoc, <- !app_assoc. reflexivity.
Qed.

(** The handler logs, tries a screenshot, and throws the error again. *)
Lemma validate_catch_rethrows e w :
  fst (validate_catch env e w) = Throw e
  /\ attempts (trace (snd (validate_catch env e w))) = attempts (trace w).
Proof.
  unfold validate_catch, captureScreenshot, try_catch, bind, get_page,
    logger_error, logger_info, emit, Date_now, throw, ret.
  cbn. destruct (page w); cbn.
  - destruct (screenshot env (shots w)); cbn; split; try reflexivity;
      rewrite !attempts_snoc, <- ?app_assoc, ?app_nil_r; reflexivity.
  - split; [reflexivity|].
    rewrite !attempts_snoc, <- ?app_assoc, ?app_nil_r. reflexivity.
Qed.

(** An error thrown by the body of [try] leaves the run as that error. *)
Lemma try_throws t w e w1 :
  validate_body env t w = (Throw e, w1) ->
  fst (finally (try_catch (validate_body env t) (validate_catch env))
               (validate_finally env t) w) = Throw e
  /\ attempts
       (trace (snd (finally (try_catch (validate_body env t)
                                       (validate_catch env))
                            (validate_finally env t) w)))
     = attempts (trace w1).
Proof.
  intros Hbody. unfold finally, try_catch. rewrite Hbody.
  destruct (validate_catch_rethrows e w1) as [Hr Ha].
  destruct (validate_catch env e w1) as [r w2]. simpl in Hr, Ha. subst r.
  cbn. split; [reflexivity|].
  rewrite !attempts_snoc, <- ?app_assoc, ?app_nil_r. exact Ha.
Qed.

End RunRetry.

Lemma bind_ok {A B} (m : M A) (k : A -> M B) w a w1 :
  m w = (Ok a, w1) -> bind m k w = k a w1.
Proof. intros H. unfold bind. now rewrite H. Qed.

Lemma bind_throw {A B} (m : M A) (k : A -> M B) w e w1 :
  m w = (Throw e, w1) -> bind m k w = (Throw e, w1).
Proof. intros H. unfold bind. now rewrite H. Qed.

Section BodyRetry.

Variable env : Env.

Lemma validate_body_goto_exhausted t w e0 e1 e2 :
  newContext env = None -> newPage env = None ->
  goto env (gotos w) = Some e0 ->
  goto env (S (gotos w)) = Some e1 ->
  goto env (S (S (gotos w))) = Some e2 ->
  fst (validate_body env t w) = Throw e2
  /\ attempts (trace (snd (validate_body env t w)))
     = (attempts (trace w) ++ [Goto; Sleep 1000; Goto; Sleep 2000; Goto])%list.
Proof.
  intros Hctx Hpage H0 H1 H2. unfold validate_body.
  rewrite Hctx, Hpage.
  do 4 (erewrite bind_ok by reflexivity).
  match goal with
  | |- context [bind (retry env (page_goto env) CONFIG.maxRetries) ?k ?w4] =>
      destruct (retry_goto_exhausted env w4 e0 e1 e2 H0 H1 H2)
        as (Hr & Ha & _);
      destruct (retry env (page_goto env) CONFIG.maxRetries w4)
        as [r w5] eqn:Hretry
  end.
  simpl in Hr, Ha. subst r.
  rewrite (bind_throw _ _ _ _ _ Hretry). simpl. split; [reflexivity|].
  rewrite Ha. cbn. rewrite attempts_snoc, app_nil_r. reflexivity.
Qed.

Lemma validate_body_all_exhausted t w e0 e1 e2 :
  newContext env = None -> newPage env = None ->
  goto env (gotos w) = None ->
  all env (alls w) = inl e0 ->
  all env (S (alls w)) = inl e1 ->
  all env (S (S (alls w))) = inl e2 ->
  fst (validate_body env t w) = Throw e2
  /\ attempts (trace (snd (validate_body env t w)))
     = (attempts (trace w)
        ++ [Goto; LocateAll; Sleep 1000; LocateAll; Sleep 2000;
            LocateAll])%list.
Proof.
  intros Hctx Hpage Hgoto H0 H1 H2. unfold validate_body.
  rewrite Hctx, Hpage.
  do 4 (erewrite bind_ok by reflexivity).
  erewrite bind_ok
    by (unfold retry, CONFIG.maxRetries, retry_from, try_catch, bind,
          page_goto; cbn; rewrite Hgoto; reflexivity).
  erewrite bind_ok by reflexivity.
  match goal with
  | |- context [bind (retry env (locator_all env) CONFIG.maxRetries) ?k ?w4] =>
      destruct (retry_all_exhausted env w4 e0 e1 e2 H0 H1 H2)
        as (Hr & Ha & _);
      destruct (retry env (locator_all env) CONFIG.maxRetries w4)
        as [r w5] eqn:Hretry
  end.
  simpl in Hr, Ha. subst r.
  rewrite (bind_throw _ _ _ _ _ Hretry). simpl. split; [reflexivity|].
  rewrite Ha. cbn. rewrite !attempts_snoc, !app_nil_r, <- app_assoc.
  reflexivity.
Qed.

End BodyRetry.

(** C8 (as amended).  [retry] wraps the navigation and, likewise, the
    look-up of the rows: either step is attempted up to 3 times, with a
    pause of 1000 ms after the first failure and 2000 ms after the
    second; when the third attempt fails too, its error is thrown and
    the run ends with that error. *)
Theorem retry_wraps_navigation_and_lookup env w e0 e1 e2 :
  launch env = None -> newContext env = None -> newPage env = None ->
  (goto env (gotos w) = Some e0 ->
   goto env (S (gotos w)) = Some e1 ->
   goto env (S (S (gotos w))) = Some e2 ->
   fst (validateHNSorting env w) = Throw e2
   /\ attempts (trace (snd (validateHNSorting env w)))
      = (attempts (trace w)
         ++ [Goto; Sleep 1000; Goto; Sleep 2000; Goto])%list)
  /\ (goto env (gotos w) = None ->
      all env (alls w) = inl e0 ->
      all env (S (alls w)) = inl e1 ->
      all env (S (S (alls w))) = inl e2 ->
      fst (validateHNSorting env w) = Throw e2
      /\ attempts (trace (snd (validateHNSorting env w)))
         = (attempts (trace w)
            ++ [Goto; LocateAll; Sleep 1000; LocateAll; Sleep 2000;
                LocateAll])%list).
Proof.
  intros Hlaunch Hctx Hpage.
  assert (Hrun : forall w1 tail,
             (forall t w',
                 gotos w' = gotos w -> alls w' = alls w ->
                 fst (validate_body env t w') = Throw e2
                 /\ attempts (trace (snd (validate_body env t w')))
                    = (attempts (trace w') ++ tail)%list) ->
             w1 = validateHNSorting env w ->
             fst w1 = Throw e2
             /\ attempts (trace (snd w1)) = (attempts (trace w) ++ tail)%list).
  { intros w1 tail Hbody ->.
    unfold validateHNSorting, chromium_launch.
    erewrite bind_ok by reflexivity.
    rewrite Hlaunch.
    erewrite bind_ok by reflexivity.
    match goal with
    | |- context [finally _ _ ?w2] =>
        destruct (Hbody (clock env (reads w)) w2 eq_refl eq_refl)
          as [Hr Ha];
        destruct (validate_body env (clock env (reads w)) w2)
          as [r w3] eqn:Hb
    end.
    simpl in Hr, Ha. subst r.
    destruct (try_throws env _ _ _ _ Hb) as [Hr' Ha'].
    split; [exact Hr'|]. rewrite Ha', Ha. cbn.
    rewrite attempts_snoc, app_nil_r. reflexivity. }
  split.
  - intros H0 H1 H2. apply Hrun; [|reflexivity].
    intros t w' Hg _. apply validate_body_goto_exhausted with e0 e1;
      auto; rewrite Hg; assumption.
  - intros Hgoto H0 H1 H2. apply Hrun; [|reflexivity].
    intros t w' Hg Ha. apply validate_body_all_exhausted with e0 e1;
      auto; rewrite ?Hg, ?Ha; assumption.
Qed.

Lemma retry_wraps_navigation_and_lookup_witness :
  (launch (offline 1793664000000 timeout_error) = None
   /\ newContext (offline 1793664000000 timeout_error) = None
   /\ newPage (offline 1793664000000 timeout_error) = None
   /\ goto (offline 1793664000000 timeout_error) (gotos start)
      = Some timeout_error
   /\ fst (validateHNSorting (offline 1793664000000 timeout_error) start)
      = Throw timeout_error
   /\ attempts
        (trace (snd (validateHNSorting
                       (offline 1793664000000 timeout_error) start)))
      = [Goto; Sleep 1000; Goto; Sleep 2000; Goto])
  /\ (launch (no_rows 1793664000000 timeout_error) = None
      /\ goto (no_rows 1793664000000 timeout_error) (gotos start) = None
      /\ all (no_rows 1793664000000 timeout_error) (alls start)
         = inl timeout_error
      /\ fst (validateHNSorting (no_rows 1793664000000 timeout_error) start)
         = Throw timeout_error
      /\ attempts
           (trace (snd (validateHNSorting
                          (no_rows 1793664000000 timeout_error) start)))
         = [Goto; LocateAll; Sleep 1000; LocateAll; Sleep 2000; LocateAll]).
Proof.
  split.
  - do 4 (split; [reflexivity|]).
    apply (proj1 (retry_wraps_navigation_and_lookup
                    (offline 1793664000000 timeout_error) start
                    timeout_error timeout_error timeout_error
                    eq_refl eq_refl eq_refl));
      reflexivity.
  - do 3 (split; [reflexivity|]).
    apply (proj2 (retry_wraps_navigation_and_lookup
                    (no_rows 1793664000000 timeout_error) start
                    timeout_error timeout_error timeout_error
                    eq_refl eq_refl eq_refl));
      reflexivity.
Defined.

(** C8, counterexample.  The row look-up fails twice, then answers: the
    run pauses 1000 ms and 2000 ms between the three look-ups and
    completes.  The back-off is not around the navigation only. *)
Lemma retry_around_row_lookup :
  fst (validateHNSorting (flaky_rows 1793664000000 timeout_error []) start)
  = Ok tt
  /\ attempts
       (trace (snd (validateHNSorting
                      (flaky_rows 1793664000000 timeout_error []) start)))
     = [Goto; LocateAll; Sleep 1000; LocateAll; Sleep 2000; LocateAll].
Proof. split; reflexivity. Qed.

(* ================================================================= *)
(** ** The clock during the collection *)

(** Every call of [parseTimeAgo] takes a reading of its own. *)
Lemma parseTimeAgo_reads_clock env label w :
  (reads w < reads (snd (parseTimeAgo env label w)))%nat.
Proof.
  unfold parseTimeAgo, new_Date, bind, Date_now, ret.
  destruct (regex_match label) as [[number unit]|]; [|simpl; lia].
  destruct (negb (truthy (get multipliers
                            (replace_final_s (toLowerCase unit)))));
    simpl; lia.
Qed.

(** C6, evaluated at the failing input.  Two rows labelled
    "5 minutes ago", under a clock that advances between the two calls
    of [parseTimeAgo]: each entry is parsed against its own reading, the
    two instants differ by that millisecond, and the check reports the
    second entry as an inversion of 0 minutes instead of skipping a
    tie. *)
Theorem clock_read_for_each_entry :
  fst (collect (ticking 1793664000000 same_label_rows) same_label_rows
         0 2 [] start)
  = Ok [ {| title := "older story"; timeText := "5 minutes ago";
            timestamp := TimeValue (1793664000000 - 5 * 60000) |};
         {| title := "newer story"; timeText := "5 minutes ago";
            timestamp := TimeValue (1793664000001 - 5 * 60000) |} ]
  /\ fst (verify (ticking 1793664000000 same_label_rows)
            [ {| title := "older story"; timeText := "5 minutes ago";
                 timestamp := TimeValue (1793664000000 - 5 * 60000) |};
              {| title := "newer story"; timeText := "5 minutes ago";
                 timestamp := TimeValue (1793664000001 - 5 * 60000) |} ]
            start)
     = Ok (false,
           [ {| position := 1;
                article1 :=
                  {| title := "older story"; timeText := "5 minutes ago";
                     timestamp := TimeValue (1793664000000 - 5 * 60000) |};
                article2 :=
                  {| title := "newer story"; timeText := "5 minutes ago";
                     timestamp := TimeValue (1793664000001 - 5 * 60000) |};
                timeDiff := Num 0 |} ])
  /\ In (Console Stderr (Some 1793664000009)
           "ERROR: Position 1 - Time difference: 0 minutes")
        (trace (snd (validateHNSorting
                       (ticking 1793664000000 same_label_rows) start))).
Proof.
  split; [reflexivity|]. split; [reflexivity|].
  vm_compute. tauto.
Qed.

(* ================================================================= *)
(** ** More on the ordering check *)

(** A list that is not non-increasing has a first inversion. *)
Lemma first_inversion_exists articles :
  non_increasing articles = false ->
  exists k prev curr,
    (1 <= k)%nat
    /\ nth_error articles (k - 1) = Some prev
    /\ nth_error articles k = Some curr
    /\ later (timestamp curr) (timestamp prev) = true
    /\ non_increasing (firstn k articles) = true.
Proof.
  induction articles as [|a rest IH]; [discriminate|].
  destruct rest as [|b rest]; [discriminate|].
  intros H.
  change (negb (later (timestamp b) (timestamp a))
          && non_increasing (b :: rest) = false) in H.
  destruct (later (timestamp b) (timestamp a)) eqn:Hab.
  - exists 1%nat, a, b. repeat split; auto.
  - simpl in H. destruct (IH H) as (k & prev & curr & Hk & Hp & Hc & Hl & Hs).
    exists (S k), prev, curr. repeat split; auto; try lia.
    + replace (S k - 1)%nat with (S (k - 1)) by lia. exact Hp.
    + destruct k as [|k]; [lia|].
      change (negb (later (timestamp b) (timestamp a))
              && non_increasing (firstn (S k) (b :: rest)) = true).
      now rewrite Hab, Hs.
Qed.

Lemma minutes_between_nonneg tc tp :
  tp < tc ->
  exists d, minutes_between (TimeValue tc) (TimeValue tp) = Num d /\ 0 <= d.
Proof.
  intros H. exists ((tc - tp + 30000) / 60000). split.
  - unfold minutes_between. simpl. now rewrite Math_round_minutes.
  - apply Z.div_pos; lia.
Qed.

Lemma sort_loop0_sorted articles :
  forall todo i w,
    (1 <= i)%nat -> (i + todo = List.length articles)%nat ->
    (forall j prev curr,
        (i <= S j)%nat ->
        nth_error articles j = Some prev ->
        nth_error articles (S j) = Some curr ->
        later (timestamp curr) (timestamp prev) = false) ->
    sort_loop0 articles i todo w = (Ok true, w).
Proof.
  induction todo as [|todo IH]; intros i w Hi Hlen Hsorted; [reflexivity|].
  simpl sort_loop0.
  destruct (nth_error articles i) as [curr|] eqn:Hcurr;
    [|apply nth_error_None in Hcurr; lia].
  destruct (nth_error articles (i - 1)) as [prev|] eqn:Hprev;
    [|apply nth_error_None in Hprev; lia].
  assert (Hpair : later (timestamp curr) (timestamp prev) = false).
  { apply (Hsorted (i - 1)%nat); [lia|assumption|].
    replace (S (i - 1)) with i by lia. assumption. }
  rewrite js_gt_later, Hpair. apply IH; [lia|lia|].
  intros j p c Hj. apply Hsorted. lia.
Qed.

Lemma sort_loop0_first_inversion articles k prev curr :
  nth_error articles (k - 1) = Some prev ->
  nth_error articles k = Some curr ->
  later (timestamp curr) (timestamp prev) = true ->
  forall todo i w,
    (1 <= i <= k)%nat -> (i + todo = List.length articles)%nat ->
    (forall j p c,
        (i <= S j < k)%nat ->
        nth_error articles j = Some p ->
        nth_error articles (S j) = Some c ->
        later (timestamp c) (timestamp p) = false) ->
    fst (sort_loop0 articles i todo w) = Ok false
    /\ trace (snd (sort_loop0 articles i todo w))
       = (trace w
          ++ [ Console Stderr None
                 ("Sorting error detected at position "
                  ++ show (Z.of_nat k) ++ ":");
               Console Stderr None
                 ("  " ++ title prev ++ " (" ++ timeText prev ++ ")");
               Console Stderr None
                 ("  " ++ title curr ++ " (" ++ timeText curr ++ ")") ])%list.
Proof.
  intros Hprev Hcurr Hlater.
  assert (Hk : (k < List.length articles)%nat)
    by (apply nth_error_Some; congruence).
  induction todo as [|todo IH]; intros i w Hi Hlen Hbefore; [lia|].
  simpl sort_loop0.
  destruct (Nat.eq_dec i k) as [->|Hne].
  - rewrite Hcurr, Hprev, js_gt_later, Hlater. cbn.
    rewrite <- !app_assoc. split; reflexivity.
  - destruct (nth_error articles i) as [c|] eqn:Hc;
      [|apply nth_error_None in Hc; lia].
    destruct (nth_error articles (i - 1)) as [p|] eqn:Hp;
      [|apply nth_error_None in Hp; lia].
    assert (Hpair : later (timestamp c) (timestamp p) = false).
    { apply (Hbefore (i - 1)%nat); [lia|assumption|].
      replace (S (i - 1)) with i by lia. assumption. }
    rewrite js_gt_later, Hpair. apply IH; [lia|lia|].
    intros j p' c' Hj. apply Hbefore. lia.
Qed.

Lemma firstn_pairs (articles : list Article) k j p c :
  (S j < k)%nat ->
  nth_error articles j = Some p ->
  nth_error articles (S j) = Some c ->
  nth_error (firstn k articles) j = Some p
  /\ nth_error (firstn k articles) (S j) = Some c.
Proof.
  intros Hj Hp Hc. rewrite !nth_error_firstn.
  destruct (Nat.ltb_spec j k); [|lia].
  destruct (Nat.ltb_spec (S j) k); [|lia]. now split.
Qed.

(** X1.  The check of [src/index.js] never throws, and its verdict is
    exact: [isSorted] is true precisely when no entry is strictly later
    than the entry before it.  With [isSorted] true no error is
    recorded; with [isSorted] false exactly one is, at an index [k] of
    the list, for a pair that really is an inversion, with a difference
    in minutes that is not negative. *)
Theorem verify_verdict env w articles :
  exists errs,
    fst (verify env articles w) = Ok (non_increasing articles, errs)
    /\ (non_increasing articles = true -> errs = [])
    /\ (non_increasing articles = false ->
        exists k prev curr d,
          errs = [ {| position := k; article1 := prev; article2 := curr;
                      timeDiff := Num d |} ]
          /\ (1 <= k < List.length articles)%nat
          /\ nth_error articles (k - 1) = Some prev
          /\ nth_error articles k = Some curr
          /\ later (timestamp curr) (timestamp prev) = true
          /\ 0 <= d).
Proof.
  destruct (non_increasing articles) eqn:Hs.
  - exists []. split; [|split; [reflexivity|discriminate]].
    unfold verify. destruct articles as [|a rest]; [reflexivity|].
    apply sort_loop_sorted; [lia | simpl; lia |].
    intros j prev curr _. now apply non_increasing_nth.
  - destruct (first_inversion_exists _ Hs)
      as (k & prev & curr & Hk & Hp & Hc & Hl & Hb).
    assert (Hlen : (k < List.length articles)%nat)
      by (apply nth_error_Some; congruence).
    destruct (timestamp curr) as [tc|] eqn:Htc; [|discriminate].
    destruct (timestamp prev) as [tp|] eqn:Htp; [|discriminate].
    simpl in Hl. apply Z.ltb_lt in Hl.
    destruct (minutes_between_nonneg tc tp Hl) as (d & Hd & Hd0).
    exists [ {| position := k; article1 := prev; article2 := curr;
                timeDiff := Num d |} ].
    split; [|split; [discriminate|]].
    + rewrite <- Hd, <- Htc, <- Htp.
      apply verify_first_inversion; auto.
      rewrite Htc, Htp. simpl. now apply Z.ltb_lt.
    + intros _. exists k, prev, curr, d. repeat split; auto; try lia.
      rewrite Htc, Htp. simpl. now apply Z.ltb_lt.
Qed.

(** X2.  The two variants of the check agree on every list: the check
    of the earlier variant returns the [isSorted] of the check of
    [src/index.js], whatever the worlds the two run in
    (skipping ties changes no verdict), and it prints the position and
    the two entries of exactly the error that [src/index.js] records,
    nothing when there is none. *)
Theorem checks_same_verdict env w w0 articles :
  exists isSorted errs,
    fst (verify env articles w) = Ok (isSorted, errs)
    /\ fst (sort_loop0 articles 1 (List.length articles - 1) w0)
       = Ok isSorted
    /\ trace (snd (sort_loop0 articles 1 (List.length articles - 1)
                     w0))
       = (trace w0 ++ flat_map lines0 errs)%list.
Proof.
  destruct (non_increasing articles) eqn:Hs.
  - exists true, []. split; [|].
    + unfold verify. destruct articles as [|a rest]; [reflexivity|].
      apply sort_loop_sorted; [lia | simpl; lia |].
      intros j prev curr _. now apply non_increasing_nth.
    + assert (H0 : sort_loop0 articles 1 (List.length articles - 1) w0
                   = (Ok true, w0)).
      { destruct articles as [|a rest]; [reflexivity|].
        apply sort_loop0_sorted; [lia | simpl; lia |].
        intros j prev curr _. now apply non_increasing_nth. }
      rewrite H0. simpl. now rewrite app_nil_r.
  - destruct (first_inversion_exists _ Hs)
      as (k & prev & curr & Hk & Hp & Hc & Hl & Hb).
    assert (Hlen : (k < List.length articles)%nat)
      by (apply nth_error_Some; congruence).
    exists false,
      [ {| position := k; article1 := prev; article2 := curr;
           timeDiff := minutes_between (timestamp curr) (timestamp prev) |} ].
    split; [now apply verify_first_inversion|].
    assert (Hbefore : forall j p c,
               (1 <= S j < k)%nat ->
               nth_error articles j = Some p ->
               nth_error articles (S j) = Some c ->
               later (timestamp c) (timestamp p) = false).
    { intros j p c Hj Hpj Hcj.
      destruct (firstn_pairs articles k j p c) as [H1 H2]; auto; try lia.
      exact (non_increasing_nth _ Hb j p c H1 H2). }
    destruct (sort_loop0_first_inversion articles k prev curr Hp Hc Hl
                (List.length articles - 1) 1 w0) as [Hr Ht];
      [lia | lia | exact Hbefore |].
    split; [exact Hr|]. rewrite Ht. reflexivity.
Qed.

(* ================================================================= *)
(** ** More on the two parsers *)

Lemma parseTimeAgo_no_digit_witness :
  every notDigit "just now" = true /\
  parseTimeAgo (ticking 1793664000000 []) "just now" start
  = (Ok (TimeValue 1793664000000),
     snd (Date_now (ticking 1793664000000 []) start)).
Proof.
  split; [reflexivity|].
  apply (parseTimeAgo_no_digit (ticking 1793664000000 []) start "just now").
  reflexivity.
Defined.

Lemma parseTimeAgo_unknown_unit_witness :
  regex_match "3 fortnights ago" = Some ("3", "fortnights") /\
  fst (parseTimeAgo (ticking 1793664000000 []) "3 fortnights ago" start)
  = Ok (TimeValue 1793664000000)
  /\ trace (snd (parseTimeAgo (ticking 1793664000000 []) "3 fortnights ago"
                   start))
     = [ Console Stderr (Some 1793664000001)
           ("ERROR: Unknown time unit: fortnights in " ++ dq
            ++ "3 fortnights ago" ++ dq) ].
Proof.
  split; [reflexivity|].
  apply (parseTimeAgo_unknown_unit (ticking 1793664000000 []) start
           "3 fortnights ago" "3" "fortnights").
  - reflexivity.
  - vm_compute. intros [H|[H|[H|[H|[H|[]]]]]]; discriminate H.
  - vm_compute. discriminate.
Defined.

Lemma regex_match_digits_word_witness :
  every notDigit "posted " = true /\
  (0 < String.length "12")%nat /\ every isDigit "12" = true /\
  every isSpace "  " = true /\
  (0 < String.length "Hours")%nat /\ every isLetter "Hours" = true /\
  first_not isLetter " ago" = true /\
  regex_match "posted 12  Hours ago" = Some ("12", "Hours").
Proof.
  repeat (split; [first [reflexivity | vm_compute; lia]|]).
  apply (regex_match_digits_word "posted " "12" "  " "Hours" " ago");
    first [reflexivity | vm_compute; lia].
Defined.

(** X5.  A call of [parseTimeAgo] of [src/index.js] never throws and
    never touches the browser: it takes one clock reading, or two when
    it logs, and adds to the console at most one line, on stderr. *)
Theorem parseTimeAgo_frame env label w :
  exists d,
    fst (parseTimeAgo env label w) = Ok d
    /\ gotos (snd (parseTimeAgo env label w)) = gotos w
    /\ alls (snd (parseTimeAgo env label w)) = alls w
    /\ shots (snd (parseTimeAgo env label w)) = shots w
    /\ page (snd (parseTimeAgo env label w)) = page w
    /\ ((reads (snd (parseTimeAgo env label w)) = S (reads w)
         /\ trace (snd (parseTimeAgo env label w)) = trace w)
        \/ (reads (snd (parseTimeAgo env label w)) = S (S (reads w))
            /\ exists text,
                 trace (snd (parseTimeAgo env label w))
                 = (trace w
                    ++ [Console Stderr (Some (clock env (S (reads w))))
                          text])%list)).
Proof.
  unfold parseTimeAgo, new_Date, bind, Date_now, ret.
  destruct (regex_match label) as [[number unit]|].
  - destruct (negb (truthy (get multipliers
                              (replace_final_s (toLowerCase unit))))).
    + eexists. repeat split. right. split; [reflexivity|].
      eexists. reflexivity.
    + eexists. repeat split. left. split; reflexivity.
  - eexists. repeat split. left. split; reflexivity.
Qed.

(** X8.  Plural and case make no difference: two labels with the same
    digits whose units are equal once lower-cased and without a final
    "s" parse, against the same clock reading, to the same [Date]. *)
Theorem parseTimeAgo_unit_normalised env w label1 label2 number unit1 unit2 :
  regex_match label1 = Some (number, unit1) ->
  regex_match label2 = Some (number, unit2) ->
  replace_final_s (toLowerCase unit1) = replace_final_s (toLowerCase unit2) ->
  fst (parseTimeAgo env label1 w) = fst (parseTimeAgo env label2 w).
Proof.
  intros H1 H2 Hu. unfold parseTimeAgo, new_Date, bind, Date_now, ret.
  rewrite H1, H2, Hu.
  destruct (negb (truthy (get multipliers
                            (replace_final_s (toLowerCase unit2)))));
    reflexivity.
Qed.

Lemma parseTimeAgo_unit_normalised_witness :
  regex_match "7 DAYS ago" = Some ("7", "DAYS") /\
  regex_match "7 day ago" = Some ("7", "day") /\
  replace_final_s (toLowerCase "DAYS") = replace_final_s (toLowerCase "day")
  /\ fst (parseTimeAgo (ticking 1793664000000 []) "7 DAYS ago" start)
     = fst (parseTimeAgo (ticking 1793664000000 []) "7 day ago" start).
Proof.
  do 3 (split; [reflexivity|]).
  apply (parseTimeAgo_unit_normalised (ticking 1793664000000 []) start
           "7 DAYS ago" "7 day ago" "7" "DAYS" "day");
    reflexivity.
Defined.

(** X9.  With one unit of the table and one clock reading, a larger
    number never gives a later instant: the label that says "longer
    ago" is never strictly later than the other. *)
Theorem parseTimeAgo_longer_ago_not_later
        env w label1 label2 number1 number2 unit1 unit2 u m d1 d2 :
  regex_match label1 = Some (number1, unit1) ->
  regex_match label2 = Some (number2, unit2) ->
  replace_final_s (toLowerCase unit1) = u ->
  replace_final_s (toLowerCase unit2) = u ->
  In (u, m)
     [ ("minute", 60000); ("hour", 3600000); ("day", 86400000);
       ("month", 2592000000); ("year", 31536000000) ] ->
  magnitude number1 <= magnitude number2 ->
  fst (parseTimeAgo env label1 w) = Ok d1 ->
  fst (parseTimeAgo env label2 w) = Ok d2 ->
  later d2 d1 = false.
Proof.
  intros H1 H2 Hu1 Hu2 Hin Hle Hd1 Hd2.
  destruct (regex_match_groups _ _ _ H1) as (Hn1 & Hdig1 & _ & _).
  destruct (regex_match_groups _ _ _ H2) as (Hn2 & Hdig2 & _ & _).
  rewrite (parseTimeAgo_match env w _ _ _ _ _ H1 Hn1 Hdig1 Hu1 Hin) in Hd1.
  rewrite (parseTimeAgo_match env w _ _ _ _ _ H2 Hn2 Hdig2 Hu2 Hin) in Hd2.
  inversion Hd1; inversion Hd2; subst d1 d2. clear Hd1 Hd2.
  assert (Hm : 0 < m).
  { simpl in Hin.
    destruct Hin as [H|[H|[H|[H|[H|[]]]]]]; inversion H; lia. }
  unfold Date_of_number.
  destruct (Z.abs (clock env (reads w) - magnitude number1 * m) <=? maxTime);
    destruct (Z.abs (clock env (reads w) - magnitude number2 * m)
              <=? maxTime);
    try reflexivity.
  simpl. apply Z.ltb_ge. nia.
Qed.

Lemma parseTimeAgo_longer_ago_not_later_witness :
  regex_match "59 minutes ago" = Some ("59", "minutes") /\
  regex_match "61 Minute ago" = Some ("61", "Minute") /\
  magnitude "59" <= magnitude "61" /\
  later (TimeValue (1793664000000 - 61 * 60000))
        (TimeValue (1793664000000 - 59 * 60000)) = false.
Proof.
  do 2 (split; [reflexivity|]). split; [vm_compute; congruence|].
  apply (parseTimeAgo_longer_ago_not_later (ticking 1793664000000 []) start
           "59 minutes ago" "61 Minute ago" "59" "61" "minutes" "Minute"
           "minute" 60000);
    first [reflexivity | vm_compute; congruence | simpl; tauto].
Defined.

Lemma span_rest_every p q s :
  every q s = true -> every q (snd (span p s)) = true.
Proof.
  induction s as [|c s IH]; intros H; [reflexivity|]. simpl.
  destruct (p c); [|exact H].
  simpl in H. apply andb_true_iff in H as [_ H]. specialize (IH H).
  destruct (span p s) as [a b]. exact IH.
Qed.

Lemma take_sign_rest s :
  snd (take_sign s) = s \/ exists c, s = String c (snd (take_sign s)).
Proof.
  destruct s as [|c s]; [now left|].
  destruct c as [[] [] [] [] [] [] [] []];
    first [left; reflexivity | right; eexists; reflexivity].
Qed.

Lemma take_radix_no_digit s :
  every notDigit s = true -> take_radix s = (10, s).
Proof.
  destruct s as [|c s]; [reflexivity|]. simpl every. intros H.
  apply andb_true_iff in H as [Hc _]. revert Hc.
  destruct c as [[] [] [] [] [] [] [] []];
    first [reflexivity | vm_compute; discriminate].
Qed.

Lemma not_digit_radix10 c : notDigit c = true -> radix_digit 10 c = None.
Proof. by_cases_on c. Qed.

(** Without a digit there is no number to read. *)
Lemma parseInt_no_digit s : every notDigit s = true -> parseInt s = NaN.
Proof.
  intros H. unfold parseInt.
  pose proof (span_rest_every isSpace notDigit s H) as H1.
  destruct (span isSpace s) as [a s1]. simpl in H1.
  assert (H2 : every notDigit (snd (take_sign s1)) = true).
  { destruct (take_sign_rest s1) as [->|[c Hc]]; [exact H1|].
    rewrite Hc in H1. simpl in H1.
    now apply andb_true_iff in H1 as [_ H1]. }
  destruct (take_sign s1) as [sign s2]. simpl in H2.
  rewrite (take_radix_no_digit s2 H2).
  destruct s2 as [|c s2]; [reflexivity|].
  simpl in H2. apply andb_true_iff in H2 as [Hc _].
  unfold digits_or_NaN. now rewrite (not_digit_radix10 c Hc).
Qed.

(** X6.  The earlier parser on a label without any digit: it takes one
    clock reading, logs nothing, and returns [now] when the label
    contains none of the words minute, hour, day, month, year, but the
    Invalid Date when it contains one (the missing number is [NaN]). *)
Theorem parseTimeAgo0_no_digit env w label :
  every notDigit label = true ->
  parseTimeAgo0 env label w
  = (Ok (if has_unit_word label then InvalidDate
         else TimeValue (clock env (reads w))),
     snd (Date_now env w)).
Proof.
  intros H. unfold parseTimeAgo0, new_Date, bind, Date_now, ret, has_unit_word.
  rewrite (parseInt_no_digit label H).
  destruct (includes "minute" label); [reflexivity|].
  destruct (includes "hour" label); [reflexivity|].
  destruct (includes "day" label); [reflexivity|].
  destruct (includes "month" label); [reflexivity|].
  destruct (includes "year" label); reflexivity.
Qed.

Lemma parseTimeAgo0_no_digit_witness :
  every notDigit "an hour ago" = true /\
  parseTimeAgo0 (ticking 1793664000000 []) "an hour ago" start
  = (Ok InvalidDate, snd (Date_now (ticking 1793664000000 []) start)).
Proof.
  split; [reflexivity|].
  apply (parseTimeAgo0_no_digit (ticking 1793664000000 []) start
           "an hour ago").
  reflexivity.
Defined.

(* ================================================================= *)
(** ** The collection of the rows *)

Lemma parseTimeAgo_returns env label w :
  exists d w1, parseTimeAgo env label w = (Ok d, w1).
Proof.
  unfold parseTimeAgo, new_Date, bind, Date_now, ret.
  destruct (regex_match label) as [[number unit]|].
  - destruct (negb (truthy (get multipliers
                              (replace_final_s (toLowerCase unit)))));
      eexists; eexists; reflexivity.
  - eexists; eexists; reflexivity.
Qed.

Lemma skipn_nth {A} (l : list A) i x :
  nth_error l i = Some x -> skipn i l = x :: skipn (S i) l.
Proof.
  revert i. induction l as [|a l IH]; intros [|i] H; try discriminate.
  - simpl in H. inversion H. reflexivity.
  - simpl in H. simpl. exact (IH i H).
Qed.

Lemma nth_error_rows texts rest i :
  (i < List.length texts)%nat ->
  exists t, nth_error texts i = Some t
            /\ nth_error (map mk_row texts ++ rest)%list i = Some (mk_row t).
Proof.
  intros Hi. destruct (nth_error texts i) as [t|] eqn:Ht;
    [|apply nth_error_None in Ht; lia].
  exists t. split; [reflexivity|].
  rewrite nth_error_app1 by (rewrite length_map; lia).
  now apply map_nth_error.
Qed.

Section Collect.

Variable env : Env.

(** Rounds [i] to [i + todo] of the loop over rows that all have their
    texts. *)
Lemma collect_rows texts rest :
  forall todo i acc w,
    (i + todo <= List.length texts)%nat ->
    exists articles,
      fst (collect env (map mk_row texts ++ rest)%list i todo acc w)
      = Ok (acc ++ articles)%list
      /\ map texts_of articles = firstn todo (skipn i texts).
Proof.
  induction todo as [|todo IH]; intros i acc w Hlen.
  - exists []. split; [simpl; now rewrite app_nil_r | reflexivity].
  - destruct (nth_error_rows texts rest i) as (t & Ht & Hrow); [lia|].
    simpl collect. rewrite Hrow. destruct t as [ti la].
    unfold mk_row at 1 2. simpl title_text. simpl age_text.
    unfold textContent.
    do 2 (erewrite bind_ok by reflexivity).
    destruct (parseTimeAgo_returns env la w) as (d & w1 & Hparse).
    rewrite (bind_ok _ _ _ _ _ Hparse).
    destruct (IH (S i)
                (acc ++ [ {| title := ti; timeText := la;
                             timestamp := d |} ])%list w1)
      as (articles & Hrun & Hmap); [lia|].
    exists ({| title := ti; timeText := la; timestamp := d |} :: articles).
    split.
    + rewrite Hrun, <- app_assoc. reflexivity.
    + rewrite (skipn_nth texts i _ Ht). simpl. now rewrite Hmap.
Qed.

(** The loop meets, within its rounds, a row with a text missing. *)
Lemma collect_missing_text texts bad rest e :
  first_error bad = Some e ->
  forall todo i acc w,
    (i <= List.length texts < i + todo)%nat ->
    fst (collect env (map mk_row texts ++ bad :: rest)%list i todo acc w)
    = Throw e.
Proof.
  intros Hbad. induction todo as [|todo IH]; intros i acc w Hi; [lia|].
  simpl collect.
  destruct (Nat.eq_dec i (List.length texts)) as [->|Hne].
  - rewrite nth_error_app2 by (rewrite length_map; lia).
    rewrite length_map, Nat.sub_diag.
    change (nth_error (bad :: rest) 0) with (Some bad). cbv beta iota.
    unfold first_error in Hbad.
    destruct (title_text bad) as [e1|ti];
      [inversion Hbad; subst; reflexivity|].
    destruct (age_text bad) as [e2|la];
      [inversion Hbad; subst; reflexivity|].
    discriminate.
  - destruct (nth_error_rows texts (bad :: rest) i) as (t & Ht & Hrow);
      [lia|].
    rewrite Hrow. destruct t as [ti la].
    unfold mk_row at 1 2. simpl title_text. simpl age_text.
    unfold textContent.
    do 2 (erewrite bind_ok by reflexivity).
    destruct (parseTimeAgo_returns env la w) as (d & w1 & Hparse).
    rewrite (bind_ok _ _ _ _ _ Hparse).
    apply IH. lia.
Qed.

End Collect.

(** X7.  The collection reads the rows in page order and stops after
    [articleLimit] = 100 of them: when the rows it reads have their
    texts, it returns one entry per row read, in order, with that row's
    title and label; rows behind the hundredth are never read, missing
    texts or not. *)
Theorem collect_caps_at_limit env w texts rest :
  rest = [] \/ (CONFIG.articleLimit <= List.length texts)%nat ->
  exists articles,
    fst (collect env (map mk_row texts ++ rest)%list 0
           (Nat.min CONFIG.articleLimit
              (List.length (map mk_row texts ++ rest)%list)) [] w)
    = Ok articles
    /\ map texts_of articles = firstn CONFIG.articleLimit texts.
Proof.
  intros Hrest.
  pose (todo := Nat.min CONFIG.articleLimit
                  (List.length (map mk_row texts ++ rest)%list)).
  assert (Htodo : (todo <= List.length texts)%nat
                  /\ firstn todo texts = firstn CONFIG.articleLimit texts).
  { subst todo. rewrite length_app, length_map.
    destruct Hrest as [->|Hlen].
    - change (List.length (@nil Row)) with 0%nat.
      rewrite Nat.add_0_r. split; [lia|].
      destruct (Nat.le_ge_cases CONFIG.articleLimit (List.length texts)).
      + now rewrite Nat.min_l.
      + rewrite Nat.min_r by assumption.
        now rewrite !firstn_all2 by lia.
    - rewrite Nat.min_l by lia. split; [lia|reflexivity]. }
  destruct Htodo as [Hle Hfirst].
  destruct (collect_rows env texts rest todo 0 [] w) as (articles & Hrun & Hmap);
    [lia|].
  exists articles. split; [exact Hrun|].
  rewrite Hmap. simpl skipn. exact Hfirst.
Qed.

Lemma collect_caps_at_limit_witness :
  (([] : list Row) = []
   \/ (CONFIG.articleLimit
       <= List.length [("a", "1 minute ago"); ("b", "2 hours ago")])%nat)
  /\ exists articles,
       fst (collect (ticking 1793664000000 [])
              (map mk_row [("a", "1 minute ago"); ("b", "2 hours ago")]
               ++ [])%list 0
              (Nat.min CONFIG.articleLimit
                 (List.length
                    (map mk_row [("a", "1 minute ago"); ("b", "2 hours ago")]
                     ++ [])%list)) [] start)
       = Ok articles
       /\ map texts_of articles
          = firstn CONFIG.articleLimit
              [("a", "1 minute ago"); ("b", "2 hours ago")].
Proof.
  split; [left; reflexivity|].
  apply (collect_caps_at_limit (ticking 1793664000000 []) start
           [("a", "1 minute ago"); ("b", "2 hours ago")] []).
  left. reflexivity.
Defined.

(* ================================================================= *)
(** ** How a run ends *)

Section Outcome.

Variable env : Env.

Lemma validateHNSorting_launched w :
  launch env = None ->
  validateHNSorting env w
  = finally (try_catch (validate_body env (clock env (reads w)))
                       (validate_catch env))
            (validate_finally env (clock env (reads w)))
            (launched env w).
Proof.
  intros Hlaunch. unfold validateHNSorting, launched, chromium_launch.
  erewrite bind_ok by reflexivity.
  rewrite Hlaunch. erewrite bind_ok by reflexivity. reflexivity.
Qed.

Lemma validateHNSorting0_launched w :
  launch env = None ->
  validateHNSorting0 env w
  = finally (try_catch (validate_body0 env) validate_catch0) browser_close
            (launched0 env w).
Proof.
  intros Hlaunch. unfold validateHNSorting0, launched0, chromium_launch.
  rewrite Hlaunch. erewrite bind_ok by reflexivity. reflexivity.
Qed.

Lemma launched_counters w :
  launch env = None ->
  gotos (launched env w) = gotos w /\ alls (launched env w) = alls w
  /\ shots (launched env w) = shots w /\ page (launched env w) = page w
  /\ trace (launched env w) = (trace w ++ [Launch])%list.
Proof.
  intros Hlaunch. unfold launched, chromium_launch, bind, Date_now.
  rewrite Hlaunch. repeat split.
Qed.

(** The run ends as the body of [try] ended. *)
Lemma run_follows_body w :
  launch env = None ->
  fst (validateHNSorting env w)
  = fst (validate_body env (clock env (reads w)) (launched env w)).
Proof.
  intros Hlaunch. rewrite (validateHNSorting_launched w Hlaunch).
  destruct (validate_body env (clock env (reads w)) (launched env w))
    as [[[]|e] w1] eqn:Hbody.
  - unfold finally, try_catch. rewrite Hbody. reflexivity.
  - now destruct (try_throws env _ _ _ _ Hbody) as [-> _].
Qed.

End Outcome.

Lemma validate_catch_logs env e w :
  exists tr,
    trace (snd (validate_catch env e w))
    = (trace w
       ++ Console Stderr (Some (clock env (reads w)))
            ("ERROR: An error occurred: " ++ message e)
       :: Console Stderr (Some (clock env (S (reads w))))
            ("ERROR: " ++ stack e)
       :: tr)%list.
Proof.
  unfold validate_catch, captureScreenshot, try_catch, bind, get_page,
    logger_error, logger_info, emit, Date_now, throw, ret.
  cbn. destruct (page w); cbn.
  - destruct (screenshot env (shots w)); cbn; eexists;
      rewrite <- ?app_assoc; cbn; reflexivity.
  - eexists. rewrite <- ?app_assoc. cbn. reflexivity.
Qed.

(** X10.  In [src/index.js] the error screenshot never masks the error:
    once the browser is launched, a run whose [try] body throws [e]
    logs the message and the stack of [e] and throws [e] itself,
    whether the screenshot in [catch] succeeds, throws or is not tried;
    and a run whose body completes completes. *)
Theorem run_rethrows_body_error env w :
  launch env = None ->
  (forall e w1,
      validate_body env (clock env (reads w)) (launched env w)
      = (Throw e, w1) ->
      fst (validateHNSorting env w) = Throw e
      /\ exists tr,
           trace (snd (validateHNSorting env w))
           = (trace w1
              ++ Console Stderr (Some (clock env (reads w1)))
                   ("ERROR: An error occurred: " ++ message e)
              :: Console Stderr (Some (clock env (S (reads w1))))
                   ("ERROR: " ++ stack e)
              :: tr)%list)
  /\ (forall w1,
         validate_body env (clock env (reads w)) (launched env w)
         = (Ok tt, w1) ->
         fst (validateHNSorting env w) = Ok tt).
Proof.
  intros Hlaunch. split.
  - intros e w1 Hbody. split.
    + rewrite (run_follows_body env w Hlaunch), Hbody. reflexivity.
    + rewrite (validateHNSorting_launched env w Hlaunch).
      unfold finally, try_catch. rewrite Hbody.
      destruct (validate_catch_logs env e w1) as (tr & Htr).
      destruct (validate_catch env e w1) as [r w2]. simpl in Htr.
      cbn. rewrite Htr. eexists.
      rewrite <- !app_assoc. cbn. reflexivity.
  - intros w1 Hbody.
    rewrite (run_follows_body env w Hlaunch), Hbody. reflexivity.
Qed.

Lemma run_rethrows_body_error_witness :
  launch (offline 1793664000000 timeout_error) = None
  /\ fst (validateHNSorting (offline 1793664000000 timeout_error) start)
     = Throw timeout_error.
Proof.
  split; [reflexivity|].
  apply (proj1 (run_rethrows_body_error
                  (offline 1793664000000 timeout_error) start eq_refl)
           timeout_error
           (snd (validate_body (offline 1793664000000 timeout_error)
                   (clock (offline 1793664000000 timeout_error)
                      (reads start))
                   (launched (offline 1793664000000 timeout_error) start)))).
  vm_compute. reflexivity.
Defined.

(** X11.  The earlier variant swallows every error of its [try] body:
    once the browser is launched, the run completes normally whatever
    happened, and an error leaves one line on stderr, just before the
    browser is closed. *)
Theorem earlier_variant_swallows_errors env w :
  launch env = None ->
  fst (validateHNSorting0 env w) = Ok tt
  /\ forall e w1,
       validate_body0 env (launched0 env w) = (Throw e, w1) ->
       trace (snd (validateHNSorting0 env w))
       = (trace w1
          ++ [Console Stderr None ("An error occurred: " ++ stack e);
              Close])%list.
Proof.
  intros Hlaunch. rewrite (validateHNSorting0_launched env w Hlaunch).
  unfold finally, try_catch. split.
  - destruct (validate_body0 env (launched0 env w)) as [[[]|e] w1];
      reflexivity.
  - intros e w1 Hbody. rewrite Hbody. cbn.
    rewrite <- app_assoc. reflexivity.
Qed.

(** X12.  When [chromium.launch()] throws, the error leaves
    [validateHNSorting] at once (the call stands before [try]): in
    [src/index.js] only the start time has been read, in the earlier
    variant nothing has happened; nothing is logged, no screenshot is
    tried, nothing is closed. *)
Theorem launch_failure_propagates env w e :
  launch env = Some e ->
  validateHNSorting env w = (Throw e, snd (Date_now env w))
  /\ validateHNSorting0 env w = (Throw e, w).
Proof.
  intros Hlaunch.
  unfold validateHNSorting, validateHNSorting0, chromium_launch, bind,
    Date_now.
  rewrite Hlaunch. split; reflexivity.
Qed.

(** X13.  The last line of either script catches what
    [validateHNSorting] throws: the promise chain never rejects.  A
    run that threw [e] gets [e] printed on stderr as its last event; a
    run that completed is left as it is. *)
Theorem main_never_rejects env w :
  (fst (main env w) = Ok tt
   /\ (forall e, fst (validateHNSorting env w) = Throw e ->
         trace (snd (main env w))
         = (trace (snd (validateHNSorting env w))
            ++ [Console Stderr None (stack e)])%list)
   /\ (fst (validateHNSorting env w) = Ok tt ->
       snd (main env w) = snd (validateHNSorting env w)))
  /\ (fst (main0 env w) = Ok tt
      /\ (forall e, fst (validateHNSorting0 env w) = Throw e ->
            trace (snd (main0 env w))
            = (trace (snd (validateHNSorting0 env w))
               ++ [Console Stderr None (stack e)])%list)
      /\ (fst (validateHNSorting0 env w) = Ok tt ->
          snd (main0 env w) = snd (validateHNSorting0 env w))).
Proof.
  unfold main, main0, try_catch. split.
  - destruct (validateHNSorting env w) as [[[]|e] w1]; simpl;
      repeat split; try discriminate.
    intros e' H. now inversion H.
  - destruct (validateHNSorting0 env w) as [[[]|e] w1]; simpl;
      repeat split; try discriminate.
    intros e' H. now inversion H.
Qed.

Lemma earlier_variant_swallows_errors_witness :
  launch (offline 1793664000000 timeout_error) = None
  /\ fst (validateHNSorting0 (offline 1793664000000 timeout_error) start)
     = Ok tt.
Proof.
  split; [reflexivity|].
  apply (proj1 (earlier_variant_swallows_errors
                  (offline 1793664000000 timeout_error) start eq_refl)).
Defined.

Lemma launch_failure_propagates_witness :
  launch (no_browser 1793664000000 timeout_error) = Some timeout_error
  /\ validateHNSorting (no_browser 1793664000000 timeout_error) start
     = (Throw timeout_error,
        snd (Date_now (no_browser 1793664000000 timeout_error) start))
  /\ validateHNSorting0 (no_browser 1793664000000 timeout_error) start
     = (Throw timeout_error, start).
Proof.
  split; [reflexivity|].
  apply (launch_failure_propagates (no_browser 1793664000000 timeout_error)
           start timeout_error).
  reflexivity.
Defined.

(* ================================================================= *)
(** ** [retry] for any number of retries *)

Lemma sleeps_snoc tr e :
  sleeps (tr ++ [e])
  = (sleeps tr ++ match e with Sleep ms => [ms] | _ => [] end)%list.
Proof.
  unfold sleeps. rewrite flat_map_app. simpl. now rewrite app_nil_r.
Qed.

Lemma backoff_cons i n :
  backoff i (S n) = CONFIG.retryDelay * 2 ^ Z.of_nat i :: backoff (S i) n.
Proof. reflexivity. Qed.

Lemma backoff_sum n :
  forall i,
    fold_right Z.add 0 (backoff i n)
    = CONFIG.retryDelay * 2 ^ Z.of_nat i * (2 ^ Z.of_nat n - 1).
Proof.
  induction n as [|n IH]; intros i.
  - simpl. lia.
  - rewrite backoff_cons.
    change (fold_right Z.add 0 (?x :: ?l)) with (x + fold_right Z.add 0 l).
    rewrite IH.
    rewrite !Nat2Z.inj_succ, !Z.pow_succ_r by lia. ring.
Qed.

Section RetryAny.

Variable env : Env.

(** What the handler of [retry] does between two attempts. *)
Lemma retry_from_failed {A} (fn : M A) retries i todo w e w1 :
  fn w = (Throw e, w1) ->
  retry_from env fn retries i (S todo) w
  = if Nat.eqb i (retries - 1) then (Throw e, w1)
    else
      retry_from env fn retries (S i) todo
        (snd ((logger_info env
                 ("Attempt " ++ show (Z.of_nat i + 1)
                  ++ " failed. Retrying in "
                  ++ show (CONFIG.retryDelay * 2 ^ Z.of_nat i) ++ "ms...") ;;
               sleep (CONFIG.retryDelay * 2 ^ Z.of_nat i)) w1)).
Proof.
  intros Hfn. simpl retry_from. unfold try_catch.
  rewrite (bind_throw _ _ _ _ _ Hfn).
  destruct (Nat.eqb i (retries - 1)); reflexivity.
Qed.

Lemma retry_from_succeeded {A} (fn : M A) retries i todo w a w1 :
  fn w = (Ok a, w1) ->
  retry_from env fn retries i (S todo) w = (Ok (Some a), w1).
Proof.
  intros Hfn. simpl retry_from. unfold try_catch.
  rewrite (bind_ok _ _ _ _ _ Hfn). reflexivity.
Qed.

Lemma pause_world msg ms w :
  let w2 := snd ((logger_info env msg ;; sleep ms) w) in
  gotos w2 = gotos w /\ alls w2 = alls w
  /\ sleeps (trace w2) = (sleeps (trace w) ++ [ms])%list.
Proof.
  cbn. repeat split. rewrite !sleeps_snoc, app_nil_r. reflexivity.
Qed.

Lemma retry_from_always_fails {A} (fn : M A) retries :
  (forall w0, exists e w1,
      fn w0 = (Throw e, w1) /\ sleeps (trace w1) = sleeps (trace w0)) ->
  forall todo i w,
    (0 < todo)%nat -> (i + todo = retries)%nat ->
    exists e w',
      retry_from env fn retries i todo w = (Throw e, w')
      /\ sleeps (trace w') = (sleeps (trace w) ++ backoff i (todo - 1))%list.
Proof.
  intros Hfn. induction todo as [|todo IH]; intros i w Htodo Hsum; [lia|].
  destruct (Hfn w) as (e & w1 & Hf & Hs).
  rewrite (retry_from_failed fn retries i todo w e w1 Hf).
  destruct (Nat.eqb_spec i (retries - 1)) as [Heq|Hne].
  - exists e, w1. split; [reflexivity|].
    replace (S todo - 1)%nat with 0%nat by lia.
    rewrite Hs. simpl. now rewrite app_nil_r.
  - match goal with
    | |- context [retry_from env fn retries (S i) todo ?w2] =>
        destruct (IH (S i) w2) as (e' & w' & Hrun & Hsl); [lia|lia|];
        assert (Hw2 : sleeps (trace w2)
                      = (sleeps (trace w1)
                         ++ [CONFIG.retryDelay * 2 ^ Z.of_nat i])%list)
          by apply pause_world
    end.
    exists e', w'. split; [exact Hrun|].
    rewrite Hsl, Hw2, Hs, <- app_assoc.
    replace (S todo - 1)%nat with (S (todo - 1)) by lia.
    now rewrite backoff_cons.
Qed.

End RetryAny.

(** X14.  The back-off of [retry], for any operation and any number of
    retries: when every attempt throws, [retry] throws, after pausing
    between attempts for the base delay times 1, 2, 4, ..., that is
    [retries - 1] pauses adding up to
    [retryDelay * (2 ^ (retries - 1) - 1)] ms. *)
Theorem retry_backoff_schedule {A} env (fn : M A) retries w :
  (forall w0, exists e w1,
      fn w0 = (Throw e, w1) /\ sleeps (trace w1) = sleeps (trace w0)) ->
  (0 < retries)%nat ->
  exists e w',
    retry env fn retries w = (Throw e, w')
    /\ sleeps (trace w') = (sleeps (trace w) ++ backoff 0 (retries - 1))%list
    /\ fold_right Z.add 0 (backoff 0 (retries - 1))
       = CONFIG.retryDelay * (2 ^ Z.of_nat (retries - 1) - 1).
Proof.
  intros Hfn Hpos. unfold retry.
  destruct (retry_from_always_fails env fn retries Hfn retries 0 w)
    as (e & w' & Hrun & Hs); [lia|lia|].
  exists e, w'. repeat split; auto.
  rewrite backoff_sum. simpl Z.of_nat. lia.
Qed.

Lemma retry_backoff_schedule_witness :
  (forall w0, exists e w1,
      page_goto (offline 1793664000000 timeout_error) w0 = (Throw e, w1)
      /\ sleeps (trace w1) = sleeps (trace w0))
  /\ (0 < 5)%nat
  /\ exists e w',
       retry (offline 1793664000000 timeout_error)
         (page_goto (offline 1793664000000 timeout_error)) 5 start
       = (Throw e, w')
       /\ sleeps (trace w') = [1000; 2000; 4000; 8000]
       /\ fold_right Z.add 0 (backoff 0 (5 - 1)) = 15000.
Proof.
  assert (H : forall w0, exists e w1,
             page_goto (offline 1793664000000 timeout_error) w0
             = (Throw e, w1)
             /\ sleeps (trace w1) = sleeps (trace w0)).
  { intros w0. eexists. eexists. split; [reflexivity|].
    cbn. rewrite sleeps_snoc. apply app_nil_r. }
  split; [exact H|]. split; [lia|].
  exact (retry_backoff_schedule (offline 1793664000000 timeout_error)
           (page_goto (offline 1793664000000 timeout_error)) 5 start H
           (Nat.lt_0_succ 4)).
Defined.

Section RetryGoto.

Variable env : Env.

Lemma page_goto_fails w e :
  goto env (gotos w) = Some e ->
  exists w1,
    page_goto env w = (Throw e, w1)
    /\ gotos w1 = S (gotos w)
    /\ sleeps (trace w1) = sleeps (trace w).
Proof.
  intros H. eexists. unfold page_goto, bind, emit, outcome. rewrite H.
  split; [reflexivity|]. split; [reflexivity|].
  cbn. rewrite sleeps_snoc. apply app_nil_r.
Qed.

Lemma page_goto_succeeds w :
  goto env (gotos w) = None ->
  exists w1,
    page_goto env w = (Ok tt, w1)
    /\ gotos w1 = S (gotos w)
    /\ sleeps (trace w1) = sleeps (trace w).
Proof.
  intros H. eexists. unfold page_goto, bind, emit, outcome. rewrite H.
  split; [reflexivity|]. split; [reflexivity|].
  cbn. rewrite sleeps_snoc. apply app_nil_r.
Qed.

Lemma retry_from_goto_succeeds retries :
  forall k todo i w,
    (k < todo)%nat -> (i + todo = retries)%nat ->
    (forall j, (j < k)%nat -> goto env (gotos w + j) <> None) ->
    goto env (gotos w + k) = None ->
    exists w',
      retry_from env (page_goto env) retries i todo w = (Ok (Some tt), w')
      /\ gotos w' = (gotos w + S k)%nat
      /\ sleeps (trace w') = (sleeps (trace w) ++ backoff i k)%list.
Proof.
  induction k as [|k IH]; intros todo i w Hk Hsum Hfail Hok;
    (destruct todo as [|todo]; [lia|]).
  - rewrite Nat.add_0_r in Hok.
    destruct (page_goto_succeeds w Hok) as (w1 & Hrun & Hg & Hs).
    exists w1. rewrite (retry_from_succeeded env _ _ _ _ _ _ _ Hrun).
    split; [reflexivity|]. split; [lia|].
    rewrite Hs. simpl. now rewrite app_nil_r.
  - destruct (goto env (gotos w)) as [e|] eqn:Hfirst;
      [|exfalso; apply (Hfail 0%nat); [lia|now rewrite Nat.add_0_r]].
    destruct (page_goto_fails w e Hfirst) as (w1 & Hrun & Hg & Hs).
    rewrite (retry_from_failed env _ _ _ _ _ _ _ Hrun).
    destruct (Nat.eqb_spec i (retries - 1)) as [Heq|Hne]; [lia|].
    match goal with
    | |- context [retry_from env _ retries (S i) todo ?w2] =>
        destruct (pause_world env
                    ("Attempt " ++ show (Z.of_nat i + 1)
                     ++ " failed. Retrying in "
                     ++ show (CONFIG.retryDelay * 2 ^ Z.of_nat i) ++ "ms...")
                    (CONFIG.retryDelay * 2 ^ Z.of_nat i) w1)
          as (Hg2 & _ & Hs2);
        destruct (IH todo (S i) w2) as (w' & Hrun' & Hg' & Hs')
    end.
    + lia.
    + lia.
    + intros j Hj. rewrite Hg2, Hg.
      replace (S (gotos w) + j)%nat with (gotos w + S j)%nat by lia.
      apply Hfail. lia.
    + rewrite Hg2, Hg.
      replace (S (gotos w) + k)%nat with (gotos w + S k)%nat by lia.
      exact Hok.
    + exists w'. split; [exact Hrun'|]. split.
      * rewrite Hg', Hg2, Hg. lia.
      * rewrite Hs', Hs2, Hs, <- app_assoc. now rewrite backoff_cons.
Qed.

Lemma retry_from_goto_exhausted retries :
  forall todo i w,
    (0 < todo)%nat -> (i + todo = retries)%nat ->
    (forall j, (j < todo)%nat -> goto env (gotos w + j) <> None) ->
    exists e w',
      goto env (gotos w + (todo - 1)) = Some e
      /\ retry_from env (page_goto env) retries i todo w = (Throw e, w')
      /\ gotos w' = (gotos w + todo)%nat
      /\ sleeps (trace w') = (sleeps (trace w) ++ backoff i (todo - 1))%list.
Proof.
  induction todo as [|todo IH]; intros i w Htodo Hsum Hfail; [lia|].
  destruct (goto env (gotos w)) as [e|] eqn:Hfirst;
    [|exfalso; apply (Hfail 0%nat); [lia|now rewrite Nat.add_0_r]].
  destruct (page_goto_fails w e Hfirst) as (w1 & Hrun & Hg & Hs).
  rewrite (retry_from_failed env _ _ _ _ _ _ _ Hrun).
  destruct (Nat.eqb_spec i (retries - 1)) as [Heq|Hne].
  - assert (todo = 0%nat) by lia. subst todo.
    exists e, w1. simpl. rewrite Nat.add_0_r. repeat split; auto.
    + lia.
    + rewrite Hs. now rewrite app_nil_r.
  - match goal with
    | |- context [retry_from env _ retries (S i) todo ?w2] =>
        destruct (pause_world env
                    ("Attempt " ++ show (Z.of_nat i + 1)
                     ++ " failed. Retrying in "
                     ++ show (CONFIG.retryDelay * 2 ^ Z.of_nat i) ++ "ms...")
                    (CONFIG.retryDelay * 2 ^ Z.of_nat i) w1)
          as (Hg2 & _ & Hs2);
        destruct (IH (S i) w2) as (e' & w' & Hlast & Hrun' & Hg' & Hs')
    end.
    + lia.
    + lia.
    + intros j Hj. rewrite Hg2, Hg.
      replace (S (gotos w) + j)%nat with (gotos w + S j)%nat by lia.
      apply Hfail. lia.
    + exists e', w'. repeat split.
      * rewrite Hg2, Hg in Hlast.
        replace (gotos w + (S todo - 1))%nat
          with (S (gotos w) + (todo - 1))%nat by lia.
        exact Hlast.
      * exact Hrun'.
      * rewrite Hg', Hg2, Hg. lia.
      * rewrite Hs', Hs2, Hs, <- app_assoc.
        replace (S todo - 1)%nat with (S (todo - 1)) by lia.
        now rewrite backoff_cons.
Qed.

End RetryGoto.

(** X15.  [retry] around the navigation, for any number of retries:
    when the first [k] navigations fail and the next one succeeds, with
    [k] below the number of retries, [retry] returns, having navigated
    [k + 1] times and paused [k] times, for the base delay times 1, 2,
    4, ...; no pause follows the success. *)
Theorem retry_goto_succeeds_after env w retries k :
  (k < retries)%nat ->
  (forall j, (j < k)%nat -> goto env (gotos w + j) <> None) ->
  goto env (gotos w + k) = None ->
  exists w',
    retry env (page_goto env) retries w = (Ok (Some tt), w')
    /\ gotos w' = (gotos w + S k)%nat
    /\ sleeps (trace w') = (sleeps (trace w) ++ backoff 0 k)%list.
Proof.
  intros Hk Hfail Hok. unfold retry.
  apply retry_from_goto_succeeds; auto.
Qed.

(** X16.  [retry] around the navigation, for any number of retries:
    when [retries] navigations in a row fail, [retry] has navigated
    exactly [retries] times, never more, and throws the error of the
    last of them. *)
Theorem retry_goto_exhausted_any env w retries :
  (0 < retries)%nat ->
  (forall j, (j < retries)%nat -> goto env (gotos w + j) <> None) ->
  exists e w',
    goto env (gotos w + (retries - 1)) = Some e
    /\ retry env (page_goto env) retries w = (Throw e, w')
    /\ gotos w' = (gotos w + retries)%nat
    /\ sleeps (trace w') = (sleeps (trace w) ++ backoff 0 (retries - 1))%list.
Proof.
  intros Hpos Hfail. unfold retry.
  apply retry_from_goto_exhausted; auto.
Qed.

Lemma retry_goto_succeeds_after_witness :
  (2 < 3)%nat
  /\ (forall j, (j < 2)%nat ->
        goto (flaky_goto 1793664000000 timeout_error []) (gotos start + j)
        <> None)
  /\ goto (flaky_goto 1793664000000 timeout_error []) (gotos start + 2) = None
  /\ exists w',
       retry (flaky_goto 1793664000000 timeout_error [])
         (page_goto (flaky_goto 1793664000000 timeout_error [])) 3 start
       = (Ok (Some tt), w')
       /\ gotos w' = 3%nat
       /\ sleeps (trace w') = [1000; 2000].
Proof.
  assert (H : forall j, (j < 2)%nat ->
                goto (flaky_goto 1793664000000 timeout_error [])
                  (gotos start + j) <> None).
  { intros [|[|j]] Hj; simpl; try discriminate. lia. }
  split; [lia|]. split; [exact H|]. split; [reflexivity|].
  exact (retry_goto_succeeds_after
           (flaky_goto 1793664000000 timeout_error []) start 3 2
           (Nat.lt_succ_diag_r 2) H eq_refl).
Defined.

Lemma retry_goto_exhausted_any_witness :
  (0 < 4)%nat
  /\ (forall j, (j < 4)%nat ->
        goto (offline 1793664000000 timeout_error) (gotos start + j) <> None)
  /\ exists e w',
       goto (offline 1793664000000 timeout_error) (gotos start + (4 - 1))
       = Some e
       /\ retry (offline 1793664000000 timeout_error)
            (page_goto (offline 1793664000000 timeout_error)) 4 start
          = (Throw e, w')
       /\ gotos w' = 4%nat
       /\ sleeps (trace w') = [1000; 2000; 4000].
Proof.
  assert (H : forall j, (j < 4)%nat ->
                goto (offline 1793664000000 timeout_error) (gotos start + j)
                <> None).
  { intros j _. simpl. discriminate. }
  split; [lia|]. split; [exact H|].
  exact (retry_goto_exhausted_any
           (offline 1793664000000 timeout_error) start 4
           (Nat.lt_0_succ 3) H).
Defined.

(* ================================================================= *)
(** ** Failures of the page *)

Section PageFailures.

Variable env : Env.

(** The body of [try] up to the collection, when the page and the rows
    come at the first attempt. *)
Lemma validate_body_collects t w rows :
  newContext env = None -> newPage env = None ->
  goto env (gotos w) = None ->
  all env (alls w) = inr rows ->
  exists w1,
    forall e w2,
      collect env rows 0 (Nat.min CONFIG.articleLimit (List.length rows)) []
        w1 = (Throw e, w2) ->
      validate_body env t w = (Throw e, w2).
Proof.
  intros Hctx Hpage Hgoto Hall. unfold validate_body.
  rewrite Hctx, Hpage.
  do 4 (erewrite bind_ok by reflexivity).
  erewrite bind_ok
    by (unfold retry, CONFIG.maxRetries, retry_from, try_catch, bind,
          page_goto; cbn; rewrite Hgoto; reflexivity).
  erewrite bind_ok by reflexivity.
  erewrite bind_ok
    by (unfold retry, CONFIG.maxRetries, retry_from, try_catch, bind,
          locator_all; cbn; rewrite Hall; reflexivity).
  cbv beta iota.
  match goal with
  | |- context [bind (collect env rows 0 _ []) _ ?w1] => exists w1
  end.
  intros e w2 Hcollect. now rewrite (bind_throw _ _ _ _ _ Hcollect).
Qed.

End PageFailures.

(** X17.  A row without its title or its age is fatal for the run of
    [src/index.js]: when the page and the rows come at the first
    attempt and, among the rows the loop reads (the first 100), one has
    a text missing while those before it have theirs, the run throws
    the error of that row, the title's before the age's. *)
Theorem missing_text_is_fatal env w texts bad rest e :
  launch env = None -> newContext env = None -> newPage env = None ->
  goto env (gotos w) = None ->
  all env (alls w) = inr (map mk_row texts ++ bad :: rest)%list ->
  (List.length texts < CONFIG.articleLimit)%nat ->
  first_error bad = Some e ->
  fst (validateHNSorting env w) = Throw e.
Proof.
  intros Hlaunch Hctx Hpage Hgoto Hall Hlen Hbad.
  rewrite (run_follows_body env w Hlaunch).
  destruct (launched_counters env w Hlaunch) as (Hg & Ha & _).
  rewrite <- Hg in Hgoto. rewrite <- Ha in Hall.
  destruct (validate_body_collects env (clock env (reads w))
              (launched env w) _ Hctx Hpage Hgoto Hall) as (w1 & Hbody).
  pose proof (collect_missing_text env texts bad rest e Hbad
                (Nat.min CONFIG.articleLimit
                   (List.length (map mk_row texts ++ bad :: rest)%list))
                0 [] w1) as Hthrow.
  destruct (collect env (map mk_row texts ++ bad :: rest)%list 0
              (Nat.min CONFIG.articleLimit
                 (List.length (map mk_row texts ++ bad :: rest)%list))
              [] w1) as [r w2] eqn:Hcollect.
  assert (Hr : r = Throw e).
  { apply Hthrow. rewrite length_app, length_map.
    change (List.length (bad :: rest)) with (S (List.length rest)).
    unfold CONFIG.articleLimit in *. lia. }
  subst r. now rewrite (Hbody e w2 eq_refl).
Qed.

Lemma missing_text_is_fatal_witness :
  launch (ticking 1793664000000
            (map mk_row [("a", "1 minute ago")] ++ [row_without_age])%list)
  = None
  /\ (List.length [("a", "1 minute ago")] < CONFIG.articleLimit)%nat
  /\ first_error row_without_age = Some timeout_error
  /\ fst (validateHNSorting
            (ticking 1793664000000
               (map mk_row [("a", "1 minute ago")] ++ [row_without_age])%list)
            start)
     = Throw timeout_error.
Proof.
  split; [reflexivity|]. split; [vm_compute; lia|]. split; [reflexivity|].
  apply (missing_text_is_fatal
           (ticking 1793664000000
              (map mk_row [("a", "1 minute ago")] ++ [row_without_age])%list)
           start [("a", "1 minute ago")] row_without_age [] timeout_error);
    first [reflexivity | vm_compute; lia].
Defined.

Lemma files_snoc tr e :
  files (tr ++ [e])
  = (files tr ++ match e with Screenshot f => [f] | _ => [] end)%list.
Proof.
  unfold files. rewrite flat_map_app. simpl. now rewrite app_nil_r.
Qed.

(** X19.  When the browser context or the page cannot be created, the
    local [page] is still undefined in [catch]: the run of
    [src/index.js] logs and throws the error without trying a
    screenshot, so no file is written. *)
Theorem no_page_no_screenshot env w e :
  launch env = None ->
  newContext env = Some e \/ (newContext env = None /\ newPage env = Some e) ->
  page w = false ->
  fst (validateHNSorting env w) = Throw e
  /\ shots (snd (validateHNSorting env w)) = shots w
  /\ files (trace (snd (validateHNSorting env w))) = files (trace w).
Proof.
  intros Hlaunch Hfail Hpage.
  rewrite (validateHNSorting_launched env w Hlaunch).
  destruct (launched_counters env w Hlaunch) as (_ & _ & Hs & Hp & Ht).
  rewrite Hpage in Hp.
  assert (Hbody : validate_body env (clock env (reads w)) (launched env w)
                  = (Throw e, launched env w)).
  { unfold validate_body. destruct Hfail as [Hctx|[Hctx Hnew]].
    - rewrite Hctx. reflexivity.
    - rewrite Hctx, Hnew. erewrite bind_ok by reflexivity. reflexivity. }
  unfold finally, try_catch. rewrite Hbody.
  unfold validate_catch, validate_finally, browser_close, bind, get_page,
    logger_error, logger_info, emit, Date_now, throw, ret.
  cbn. rewrite Hp. cbn. repeat split; auto.
  rewrite !files_snoc, !app_nil_r, Ht, files_snoc. apply app_nil_r.
Qed.

Lemma no_page_no_screenshot_witness :
  launch (no_context 1793664000000 timeout_error) = None
  /\ (newContext (no_context 1793664000000 timeout_error)
      = Some timeout_error
      \/ (newContext (no_context 1793664000000 timeout_error) = None
          /\ newPage (no_context 1793664000000 timeout_error)
             = Some timeout_error))
  /\ page start = false
  /\ fst (validateHNSorting (no_context 1793664000000 timeout_error) start)
     = Throw timeout_error
  /\ shots (snd (validateHNSorting (no_context 1793664000000 timeout_error)
                   start)) = shots start
  /\ files (trace (snd (validateHNSorting
                          (no_context 1793664000000 timeout_error) start)))
     = files (trace start).
Proof.
  split; [reflexivity|]. split; [left; reflexivity|]. split; [reflexivity|].
  apply (no_page_no_screenshot (no_context 1793664000000 timeout_error)
           start timeout_error);
    first [reflexivity | left; reflexivity].
Defined.

(* ================================================================= *)
(** ** Where screenshots are taken *)

Create HintDb quiet.

Lemma quiet_ret {A} (a : A) : quiet (ret a).
Proof. intros w. split; reflexivity. Qed.

Lemma quiet_throw {A} e : quiet (@throw A e).
Proof. intros w. split; reflexivity. Qed.

Lemma quiet_bind {A B} (m : M A) (k : A -> M B) :
  quiet m -> (forall a, quiet (k a)) -> quiet (bind m k).
Proof.
  intros Hm Hk w. unfold bind.
  destruct (Hm w) as [Hs Hf]. destruct (m w) as [[a|e] w1]; simpl in *.
  - destruct (Hk a w1) as [Hs' Hf']. split; congruence.
  - split; assumption.
Qed.

Lemma quiet_try_catch {A} (m : M A) (h : Error -> M A) :
  quiet m -> (forall e, quiet (h e)) -> quiet (try_catch m h).
Proof.
  intros Hm Hh w. unfold try_catch.
  destruct (Hm w) as [Hs Hf]. destruct (m w) as [[a|e] w1]; simpl in *.
  - split; assumption.
  - destruct (Hh e w1) as [Hs' Hf']. split; congruence.
Qed.

Lemma quiet_emit e :
  (forall f, e <> Screenshot f) -> quiet (emit e).
Proof.
  intros He w. split; [reflexivity|]. cbn. rewrite files_snoc.
  destruct e; try apply app_nil_r. now destruct (He file).
Qed.

Lemma quiet_Date_now env : quiet (Date_now env).
Proof. intros w. split; reflexivity. Qed.

Lemma quiet_set_page : quiet set_page.
Proof. intros w. split; reflexivity. Qed.

Lemma quiet_outcome o : quiet (outcome o).
Proof. destruct o; [apply quiet_throw | apply quiet_ret]. Qed.

Lemma quiet_textContent t : quiet (textContent t).
Proof. destruct t; [apply quiet_throw | apply quiet_ret]. Qed.

#[local] Hint Resolve quiet_ret quiet_throw quiet_Date_now quiet_set_page
  quiet_outcome quiet_textContent : quiet.

Lemma quiet_logger_info env msg : quiet (logger_info env msg).
Proof.
  apply quiet_bind; auto with quiet.
  intros t. apply quiet_emit. discriminate.
Qed.

Lemma quiet_logger_error env msg : quiet (logger_error env msg).
Proof.
  apply quiet_bind; auto with quiet.
  intros t. apply quiet_emit. discriminate.
Qed.

#[local] Hint Resolve quiet_logger_info quiet_logger_error : quiet.

Lemma quiet_parseTimeAgo env label : quiet (parseTimeAgo env label).
Proof.
  unfold parseTimeAgo, new_Date.
  apply quiet_bind; [apply quiet_bind; auto with quiet|].
  intros now. destruct (regex_match label) as [[number unit]|];
    auto with quiet.
  destruct (negb (truthy (get multipliers
                            (replace_final_s (toLowerCase unit)))));
    auto with quiet.
  apply quiet_bind; auto with quiet.
Qed.

Lemma quiet_collect env rows :
  forall todo i acc, quiet (collect env rows i todo acc).
Proof.
  induction todo as [|todo IH]; intros i acc; simpl; auto with quiet.
  destruct (nth_error rows i) as [row|]; auto with quiet.
  apply quiet_bind; auto with quiet. intros ti.
  apply quiet_bind; auto with quiet. intros la.
  apply quiet_bind; [apply quiet_parseTimeAgo|]. intros d. apply IH.
Qed.

Lemma quiet_sort_loop env articles :
  forall todo i, quiet (sort_loop env articles i todo).
Proof.
  induction todo as [|todo IH]; intros i; simpl; auto with quiet.
  destruct (nth_error articles i) as [curr|]; auto with quiet.
  destruct (nth_error articles (i - 1)) as [prev|]; auto with quiet.
  destruct (js_eq _ _).
  - apply quiet_bind; auto with quiet.
  - destruct (js_gt _ _); auto with quiet.
Qed.

Lemma quiet_report env errs : quiet (report env errs).
Proof.
  induction errs as [|e errs IH]; simpl; auto with quiet.
  repeat (apply quiet_bind; auto with quiet; intros _).
Qed.

Lemma quiet_page_goto env : quiet (page_goto env).
Proof.
  intros w. unfold page_goto, bind, emit, outcome.
  destruct (goto env (gotos w)); cbn;
    (split; [reflexivity|]); rewrite files_snoc; apply app_nil_r.
Qed.

Lemma quiet_locator_all env : quiet (locator_all env).
Proof.
  intros w. unfold locator_all, bind, emit.
  destruct (all env (alls w)); cbn;
    (split; [reflexivity|]); rewrite files_snoc; apply app_nil_r.
Qed.

Lemma quiet_retry_from {A} env (fn : M A) retries :
  quiet fn -> forall todo i, quiet (retry_from env fn retries i todo).
Proof.
  intros Hfn. induction todo as [|todo IH]; intros i; simpl;
    auto with quiet.
  apply quiet_try_catch.
  - apply quiet_bind; auto with quiet.
  - intros e. destruct (Nat.eqb i (retries - 1)); auto with quiet.
    apply quiet_bind; auto with quiet. intros _.
    apply quiet_bind; [apply quiet_emit; discriminate|]. intros _. apply IH.
Qed.

Lemma quiet_retry {A} env (fn : M A) retries :
  quiet fn -> quiet (retry env fn retries).
Proof. intros Hfn. now apply quiet_retry_from. Qed.

Lemma quiet_verify env articles : quiet (verify env articles).
Proof. apply quiet_sort_loop. Qed.

#[local] Hint Resolve quiet_parseTimeAgo quiet_collect quiet_sort_loop
  quiet_report quiet_page_goto quiet_locator_all quiet_retry quiet_verify
  : quiet.

Lemma quiet_one_file {A} (m : M A) : quiet m -> one_file m.
Proof. intros Hm w. left. apply Hm. Qed.

Lemma one_file_bind {A B} (m : M A) (k : A -> M B) :
  quiet m -> (forall a, one_file (k a)) -> one_file (bind m k).
Proof.
  intros Hm Hk w. unfold bind.
  destruct (Hm w) as [_ Hf]. destruct (m w) as [[a|e] w1]; simpl in *.
  - destruct (Hk a w1) as [H|(f & b & H & Hr)].
    + left. congruence.
    + right. exists f, b. split; [congruence|assumption].
  - left. assumption.
Qed.

(** [captureScreenshot] writes its file exactly when it returns. *)
Lemma captureScreenshot_cases env name w :
  (exists e, fst (captureScreenshot env name w) = Throw e
             /\ files (trace (snd (captureScreenshot env name w)))
                = files (trace w))
  \/ (screenshot env (shots w) = Saved
      /\ fst (captureScreenshot env name w)
         = Ok (CONFIG.screenshotDir ++ "/" ++ name ++ "_"
               ++ show (clock env (reads w)) ++ ".png")
      /\ files (trace (snd (captureScreenshot env name w)))
         = (files (trace w)
            ++ [(CONFIG.screenshotDir ++ "/" ++ name ++ "_"
                 ++ show (clock env (reads w)) ++ ".png")%string])%list).
Proof.
  unfold captureScreenshot.
  destruct (screenshot env (shots w)) as [e|e|]; cbn.
  - left. exists e. split; reflexivity.
  - left. exists e. split; reflexivity.
  - right. split; [reflexivity|]. split; [reflexivity|].
    now rewrite files_snoc.
Qed.

Lemma quiet_finally {A} (m : M A) (f : M unit) :
  quiet m -> quiet f -> quiet (finally m f).
Proof.
  intros Hm Hf w. unfold finally.
  destruct (Hm w) as [Hs Hfi]. destruct (m w) as [r w1]. simpl in *.
  destruct (Hf w1) as [Hs' Hfi']. destruct (f w1) as [[[]|e] w2];
    simpl in *; split; congruence.
Qed.

Lemma quiet_validate_finally env t : quiet (validate_finally env t).
Proof.
  unfold validate_finally, browser_close.
  apply quiet_bind; [apply quiet_emit; discriminate|]. intros _.
  apply quiet_bind; auto with quiet.
Qed.

Lemma one_file_shot_then_log env name (msg : string -> string) :
  one_file (bind (captureScreenshot env name)
                 (fun path => logger_info env (msg path))).
Proof.
  intros w. unfold bind.
  destruct (captureScreenshot_cases env name w)
    as [(e & Hr & Hf)|(_ & Hr & Hf)];
    destruct (captureScreenshot env name w) as [r w1]; simpl in *; subst r.
  - left. exact Hf.
  - right. cbv beta iota.
    match goal with
    | |- context [logger_info env ?m w1] =>
        destruct (quiet_logger_info env m w1) as [_ Hq]
    end.
    eexists. exists tt. split; [rewrite Hq; exact Hf | reflexivity].
Qed.

Lemma one_file_validate_body env t : one_file (validate_body env t).
Proof.
  unfold validate_body.
  repeat first
    [ apply one_file_shot_then_log
    | apply quiet_one_file; solve [auto with quiet]
    | match goal with
      | |- one_file (match ?x with _ => _ end) => destruct x
      end
    | apply one_file_bind; [solve [auto with quiet]|intros ?] ].
Qed.

(** The handler writes at most one file. *)
Lemma validate_catch_files env e w :
  exists fs,
    files (trace (snd (validate_catch env e w)))
    = (files (trace w) ++ fs)%list
    /\ (List.length fs <= 1)%nat.
Proof.
  unfold validate_catch, captureScreenshot, try_catch, bind, get_page,
    logger_error, logger_info, emit, Date_now, throw, ret.
  cbn. destruct (page w); cbn.
  - destruct (screenshot env (shots w)); cbn.
    + exists []. split; [|simpl; lia].
      rewrite !files_snoc, !app_nil_r. reflexivity.
    + exists []. split; [|simpl; lia].
      rewrite !files_snoc, !app_nil_r. reflexivity.
    + eexists [_]. split; [|simpl; lia].
      rewrite !files_snoc, !app_nil_r. reflexivity.
  - exists []. split; [|simpl; lia].
    rewrite !files_snoc, !app_nil_r. reflexivity.
Qed.

Lemma quiet_parseTimeAgo0 env label : quiet (parseTimeAgo0 env label).
Proof.
  unfold parseTimeAgo0, new_Date.
  apply quiet_bind; [apply quiet_bind; auto with quiet|].
  intros now.
  repeat match goal with
         | |- quiet (if ?b then _ else _) => destruct b
         end; auto with quiet.
Qed.

Lemma quiet_collect0 env rows :
  forall todo i acc, quiet (collect0 env rows i todo acc).
Proof.
  induction todo as [|todo IH]; intros i acc; simpl; auto with quiet.
  destruct (nth_error rows i) as [row|]; auto with quiet.
  apply quiet_bind; auto with quiet. intros ti.
  apply quiet_bind; auto with quiet. intros la.
  apply quiet_bind; [apply quiet_parseTimeAgo0|]. intros d. apply IH.
Qed.

Lemma quiet_console s text : quiet (emit (Console s None text)).
Proof. apply quiet_emit. discriminate. Qed.

Lemma quiet_sort_loop0 articles :
  forall todo i, quiet (sort_loop0 articles i todo).
Proof.
  induction todo as [|todo IH]; intros i; simpl; auto with quiet.
  destruct (nth_error articles i) as [curr|]; auto with quiet.
  destruct (nth_error articles (i - 1)) as [prev|]; auto with quiet.
  destruct (js_gt _ _); [|apply IH].
  unfold console_error.
  repeat (apply quiet_bind; [apply quiet_console|intros _]).
  auto with quiet.
Qed.

Lemma quiet_validateHNSorting0 env : quiet (validateHNSorting0 env).
Proof.
  unfold validateHNSorting0, chromium_launch, browser_close.
  apply quiet_bind.
  { apply quiet_bind; auto with quiet. intros _.
    apply quiet_emit. discriminate. }
  intros _. apply quiet_finally; [|apply quiet_emit; discriminate].
  apply quiet_try_catch.
  - unfold validate_body0, console_log.
    repeat first
      [ apply quiet_console
      | apply quiet_bind;
        [ first [ apply quiet_console | apply quiet_collect0
                | apply quiet_sort_loop0 | solve [auto with quiet] ]
        | intros ? ]
      | match goal with
        | |- quiet (if ?b then _ else _) => destruct b
        end ].
  - intros e. apply quiet_console.
Qed.

(** X20.  Screenshots are rare: a run of [src/index.js] writes at most
    one file, whatever the page does, and a run of the earlier variant
    writes none and never tries to. *)
Theorem run_writes_at_most_one_file env w :
  (exists fs,
      files (trace (snd (validateHNSorting env w)))
      = (files (trace w) ++ fs)%list
      /\ (List.length fs <= 1)%nat)
  /\ files (trace (snd (validateHNSorting0 env w))) = files (trace w)
  /\ shots (snd (validateHNSorting0 env w)) = shots w.
Proof.
  split; [|split; apply quiet_validateHNSorting0].
  destruct (launch env) as [e|] eqn:Hlaunch.
  - exists []. split; [|simpl; lia].
    unfold validateHNSorting, chromium_launch, bind, Date_now.
    rewrite Hlaunch. simpl. now rewrite app_nil_r.
  - rewrite (validateHNSorting_launched env w Hlaunch).
    destruct (launched_counters env w Hlaunch) as (_ & _ & _ & _ & Ht).
    assert (Hfl : files (trace (launched env w)) = files (trace w))
      by (rewrite Ht, files_snoc; apply app_nil_r).
    set (t := clock env (reads w)). set (w0 := launched env w) in *.
    unfold finally.
    destruct (try_catch (validate_body env t) (validate_catch env) w0)
      as [r w1] eqn:Htc.
    destruct (quiet_validate_finally env t w1) as [_ Hq].
    assert (Hend : files (trace (snd (let (r0, w2) :=
                                        validate_finally env t w1 in
                                      match r0 with
                                      | Ok _ => (r, w2)
                                      | Throw e => (Throw e, w2)
                                      end)))
                   = files (trace w1)).
    { destruct (validate_finally env t w1) as [[[]|e'] w2]; exact Hq. }
    rewrite Hend. clear Hend Hq.
    unfold try_catch in Htc.
    pose proof (one_file_validate_body env t w0) as Hone.
    destruct (validate_body env t w0) as [[a|e] w3] eqn:Hb;
      simpl in Hone.
    + inversion Htc; subst r w1.
      destruct Hone as [H|(f & b & H & _)].
      * exists []. split; [|simpl; lia]. rewrite H, Hfl.
        now rewrite app_nil_r.
      * exists [f]. split; [|simpl; lia]. now rewrite H, Hfl.
    + destruct Hone as [H|(f & b & _ & Hr)]; [|discriminate].
      destruct (validate_catch_files env e w3) as (fs & Hfs & Hlen).
      rewrite Htc in Hfs. simpl in Hfs.
      exists fs. split; [|exact Hlen]. now rewrite Hfs, H, Hfl.
Qed.

(* ================================================================= *)
(** ** A whole run under a clock that stands still *)

Lemma parseTimeAgo_at env t0 label w :
  clock env (reads w) = t0 ->
  fst (parseTimeAgo env label w) = Ok (instant_at t0 label).
Proof.
  intros Hnow. unfold instant_at, parseTimeAgo, new_Date, bind, Date_now, ret.
  rewrite Hnow. simpl clock.
  destruct (regex_match label) as [[number unit]|]; [|reflexivity].
  destruct (negb (truthy (get multipliers
                            (replace_final_s (toLowerCase unit)))));
    reflexivity.
Qed.

Lemma verify_isSorted env articles w :
  exists errs, fst (verify env articles w) = Ok (non_increasing articles, errs).
Proof.
  destruct (non_increasing articles) eqn:Hs.
  - exists []. unfold verify. destruct articles as [|a rest]; [reflexivity|].
    apply sort_loop_sorted; [lia | simpl; lia |].
    intros j prev curr _. now apply non_increasing_nth.
  - destruct (first_inversion_exists _ Hs)
      as (k & prev & curr & Hk & Hp & Hc & Hl & Hb).
    exists [ {| position := k; article1 := prev; article2 := curr;
                timeDiff := minutes_between (timestamp curr)
                              (timestamp prev) |} ].
    apply verify_first_inversion; assumption.
Qed.

Lemma report_returns env errs w : fst (report env errs w) = Ok tt.
Proof.
  revert w. induction errs as [|e errs IH]; intros w; [reflexivity|].
  simpl report. do 3 (erewrite bind_ok by reflexivity). apply IH.
Qed.

Lemma captureScreenshot_saved env name w :
  screenshot env (shots w) = Saved ->
  exists w1,
    captureScreenshot env name w
    = (Ok (CONFIG.screenshotDir ++ "/" ++ name ++ "_"
           ++ show (clock env (reads w)) ++ ".png"), w1)
    /\ files (trace w1)
       = (files (trace w)
          ++ [(CONFIG.screenshotDir ++ "/" ++ name ++ "_"
               ++ show (clock env (reads w)) ++ ".png")%string])%list.
Proof.
  intros H. unfold captureScreenshot. rewrite H.
  eexists. split; [reflexivity|]. cbn. now rewrite files_snoc.
Qed.

Section Frozen.

Variable env : Env.
Variable t0 : Z.
Hypothesis clock_frozen : forall k, clock env k = t0.

Lemma collect_frozen texts rest :
  forall todo i acc w,
    (i + todo <= List.length texts)%nat ->
    fst (collect env (map mk_row texts ++ rest)%list i todo acc w)
    = Ok (acc ++ map (entry_at t0) (firstn todo (skipn i texts)))%list.
Proof.
  induction todo as [|todo IH]; intros i acc w Hlen.
  - simpl. now rewrite app_nil_r.
  - destruct (nth_error_rows texts rest i) as (t & Ht & Hrow); [lia|].
    simpl collect. rewrite Hrow. destruct t as [ti la].
    unfold mk_row at 1 2. simpl title_text. simpl age_text.
    unfold textContent.
    do 2 (erewrite bind_ok by reflexivity).
    pose proof (parseTimeAgo_at env t0 la w (clock_frozen _)) as Hd.
    destruct (parseTimeAgo env la w) as [r w1] eqn:Hparse.
    simpl in Hd. subst r.
    rewrite (bind_ok _ _ _ _ _ Hparse), IH by lia.
    rewrite (skipn_nth texts i _ Ht), <- app_assoc. reflexivity.
Qed.

(** What [validate_articles] comes to when the screenshot can be
    saved. *)
Lemma validate_articles_outcome t articles w :
  screenshot env (shots w) = Saved ->
  fst (validate_articles env t articles w) = Ok tt
  /\ files (trace (snd (validate_articles env t articles w)))
     = (files (trace w)
        ++ if non_increasing articles then []
           else [("screenshots/sorting_failure_" ++ show t0 ++ ".png")
                 %string])%list.
Proof.
  intros Hshot. unfold validate_articles.
  erewrite bind_ok by reflexivity.
  match goal with
  | |- context [bind (verify env articles) _ ?w1] =>
      destruct (verify_isSorted env articles w1) as (errs & Hv);
      destruct (quiet_verify env articles w1) as [Hs1 Hf1];
      destruct (verify env articles w1) as [r w2] eqn:Hrun
  end.
  simpl in Hv, Hs1, Hf1. subst r.
  rewrite (bind_ok _ _ _ _ _ Hrun). cbv beta iota.
  erewrite bind_ok by reflexivity.
  assert (Hf2 : files (trace w2) = files (trace w)).
  { rewrite Hf1. cbn. rewrite files_snoc. apply app_nil_r. }
  destruct (non_increasing articles).
  - split; [reflexivity|].
    cbn. rewrite files_snoc, !app_nil_r. exact Hf2.
  - do 2 (erewrite bind_ok by reflexivity).
    match goal with
    | |- context [bind (report env errs) _ ?w3] =>
        pose proof (report_returns env errs w3) as Hr;
        destruct (quiet_report env errs w3) as [Hs3 Hf3];
        destruct (report env errs w3) as [r w4] eqn:Hrep
    end.
    simpl in Hr, Hs3, Hf3. subst r.
    rewrite (bind_ok _ _ _ _ _ Hrep).
    assert (Hshot4 : screenshot env (shots w4) = Saved).
    { rewrite Hs3. cbn. rewrite Hs1. exact Hshot. }
    destruct (captureScreenshot_saved env "sorting_failure" w4 Hshot4)
      as (w5 & Hcap & Hf5).
    rewrite (bind_ok _ _ _ _ _ Hcap). split; [reflexivity|].
    match goal with
    | |- context [logger_info env ?m w5] =>
        destruct (quiet_logger_info env m w5) as [_ Hq]
    end.
    rewrite (clock_frozen (reads w4)) in Hf5.
    rewrite Hq, Hf5, Hf3. cbn.
    rewrite !files_snoc, !app_nil_r, Hf2. reflexivity.
Qed.

(** The body of [try] when the page and the rows come at the first
    attempt: it collects, then goes on with [validate_articles]. *)
Lemma validate_body_collected t w rows :
  newContext env = None -> newPage env = None ->
  goto env (gotos w) = None ->
  all env (alls w) = inr rows ->
  exists w1,
    shots w1 = shots w /\ files (trace w1) = files (trace w)
    /\ validate_body env t w
       = bind (collect env rows 0
                 (Nat.min CONFIG.articleLimit (List.length rows)) [])
              (validate_articles env t) w1.
Proof.
  intros Hctx Hpage Hgoto Hall. unfold validate_body.
  rewrite Hctx, Hpage.
  do 4 (erewrite bind_ok by reflexivity).
  erewrite bind_ok
    by (unfold retry, CONFIG.maxRetries, retry_from, try_catch, bind,
          page_goto; cbn; rewrite Hgoto; reflexivity).
  erewrite bind_ok by reflexivity.
  erewrite bind_ok
    by (unfold retry, CONFIG.maxRetries, retry_from, try_catch, bind,
          locator_all; cbn; rewrite Hall; reflexivity).
  cbv beta iota.
  eexists. split; [|split; [|reflexivity]].
  - reflexivity.
  - cbn. rewrite !files_snoc, !app_nil_r. reflexivity.
Qed.

End Frozen.

Lemma firstn_min {A} (l : list A) n :
  firstn (Nat.min n (List.length l)) l = firstn n l.
Proof.
  destruct (Nat.le_ge_cases n (List.length l)).
  - now rewrite Nat.min_l.
  - rewrite Nat.min_r by assumption. now rewrite !firstn_all2 by lia.
Qed.

(** X21.  A whole run of [src/index.js] under a clock that stands
    still at [t0], when the page and the rows come at the first attempt,
    the rows have their texts and a screenshot can be saved: the run
    completes; what it checks is the first 100 rows, each label parsed
    against [t0]; and it writes one file, named
    [screenshots/sorting_failure_<t0>.png], exactly when those entries
    are not in non-increasing order, and none otherwise. *)
Theorem run_under_frozen_clock env w t0 texts :
  (forall k, clock env k = t0) ->
  launch env = None -> newContext env = None -> newPage env = None ->
  goto env (gotos w) = None ->
  all env (alls w) = inr (map mk_row texts) ->
  screenshot env (shots w) = Saved ->
  fst (validateHNSorting env w) = Ok tt
  /\ files (trace (snd (validateHNSorting env w)))
     = (files (trace w)
        ++ if non_increasing
                (map (entry_at t0) (firstn CONFIG.articleLimit texts))
           then []
           else [("screenshots/sorting_failure_" ++ show t0 ++ ".png")
                 %string])%list.
Proof.
  intros Hclock Hlaunch Hctx Hpage Hgoto Hall Hshot.
  rewrite (validateHNSorting_launched env w Hlaunch).
  destruct (launched_counters env w Hlaunch) as (Hg & Ha & Hs & _ & Ht).
  set (t := clock env (reads w)). set (w0 := launched env w) in *.
  rewrite <- Hg in Hgoto. rewrite <- Ha in Hall.
  destruct (validate_body_collected env t w0 _ Hctx Hpage Hgoto Hall)
    as (w1 & Hs1 & Hf1 & Hbody).
  set (todo := Nat.min CONFIG.articleLimit (List.length (map mk_row texts)))
    in *.
  pose proof (collect_frozen env t0 Hclock texts [] todo 0 [] w1) as Hcol.
  rewrite app_nil_r in Hcol.
  assert (Htodo : (0 + todo <= List.length texts)%nat)
    by (subst todo; rewrite length_map; lia).
  specialize (Hcol Htodo).
  assert (Harts : map (entry_at t0) (firstn todo (skipn 0 texts))
                  = map (entry_at t0) (firstn CONFIG.articleLimit texts)).
  { subst todo. rewrite length_map.
    change (skipn 0 texts) with texts. now rewrite firstn_min. }
  rewrite Harts in Hcol. clear Harts.
  change (([] ++ ?l)%list) with l in Hcol.
  destruct (quiet_collect env (map mk_row texts) todo 0 [] w1) as [Hs2 Hf2].
  destruct (collect env (map mk_row texts) 0 todo [] w1) as [r w2] eqn:Hrun.
  cbn [fst snd] in Hcol, Hs2, Hf2. subst r.
  rewrite (bind_ok _ _ _ _ _ Hrun) in Hbody.
  assert (Hshot2 : screenshot env (shots w2) = Saved)
    by (rewrite Hs2, Hs1, Hs; exact Hshot).
  destruct (validate_articles_outcome env t0 Hclock t
              (map (entry_at t0) (firstn CONFIG.articleLimit texts)) w2
              Hshot2) as [Hr Hf].
  rewrite <- Hbody in Hr, Hf.
  unfold finally, try_catch.
  destruct (validate_body env t w0) as [r w3].
  cbn [fst snd] in Hr, Hf. subst r.
  destruct (quiet_validate_finally env t w3) as [_ Hq].
  assert (Hfin : fst (validate_finally env t w3) = Ok tt) by reflexivity.
  destruct (validate_finally env t w3) as [r w4].
  cbn [fst snd] in Hfin, Hq. subst r.
  cbn [fst snd]. split; [reflexivity|].
  rewrite Hq, Hf, Hf2, Hf1, Ht, files_snoc, app_nil_r. reflexivity.
Qed.

Lemma run_under_frozen_clock_witness :
  (forall k,
      clock (frozen 1793664000000
               (map mk_row [("a", "5 minutes ago"); ("b", "2 minutes ago")]))
        k = 1793664000000)
  /\ fst (validateHNSorting
            (frozen 1793664000000
               (map mk_row [("a", "5 minutes ago"); ("b", "2 minutes ago")]))
            start) = Ok tt
  /\ files (trace (snd (validateHNSorting
                          (frozen 1793664000000
                             (map mk_row [("a", "5 minutes ago");
                                          ("b", "2 minutes ago")]))
                          start)))
     = ["screenshots/sorting_failure_1793664000000.png"].
Proof.
  split; [reflexivity|].
  apply (run_under_frozen_clock
           (frozen 1793664000000
              (map mk_row [("a", "5 minutes ago"); ("b", "2 minutes ago")]))
           start 1793664000000
           [("a", "5 minutes ago"); ("b", "2 minutes ago")]);
    reflexivity.
Defined.

(* ================================================================= *)
(** ** The names of the screenshots *)

Lemma show_inj z1 z2 : show z1 = show z2 -> z1 = z2.
Proof.
  unfold show. intros H.
  assert (Hnorm : forall z, Z.to_int z <> Decimal.Pos Decimal.Nil
                            /\ Z.to_int z <> Decimal.Neg Decimal.Nil).
  { intros [|p|p]; simpl; split; try discriminate;
      intros E; inversion E as [E'];
      exact (DecimalPos.Unsigned.to_uint_nonnil p E'). }
  destruct (Hnorm z1) as [H1 H1']. destruct (Hnorm z2) as [H2 H2'].
  pose proof (NilZero.isi (Z.to_int z1) H1 H1') as E1.
  pose proof (NilZero.isi (Z.to_int z2) H2 H2') as E2.
  rewrite H, E2 in E1. inversion E1 as [E].
  rewrite <- (DecimalZ.of_to z1), <- (DecimalZ.of_to z2). now rewrite E.
Qed.

Lemma append_length a b :
  String.length (a ++ b) = (String.length a + String.length b)%nat.
Proof. induction a as [|c a IH]; simpl; [reflexivity | now rewrite IH]. Qed.

Lemma append_cancel_l p a b : p ++ a = p ++ b -> a = b.
Proof.
  induction p as [|c p IH]; simpl; intros H; [exact H|].
  inversion H. auto.
Qed.

Lemma append_cancel_r a b s : a ++ s = b ++ s -> a = b.
Proof.
  intros H.
  assert (Hlen : String.length a = String.length b).
  { apply (f_equal String.length) in H. rewrite !append_length in H. lia. }
  revert b H Hlen. induction a as [|c a IH]; intros [|c' b] H Hlen;
    try discriminate; [reflexivity|].
  simpl in H, Hlen. inversion H. f_equal. apply IH; [assumption|lia].
Qed.

(** X22.  The name of a screenshot is made of its context and of the
    clock reading: two screenshots of the same context get the same
    file name exactly when they are taken at the same millisecond; at
    different readings neither overwrites the other. *)
Theorem screenshot_names env name w1 w2 path1 path2 :
  fst (captureScreenshot env name w1) = Ok path1 ->
  fst (captureScreenshot env name w2) = Ok path2 ->
  (path1 = path2 <-> clock env (reads w1) = clock env (reads w2)).
Proof.
  intros H1 H2.
  destruct (captureScreenshot_cases env name w1)
    as [(e & He & _)|(_ & Hp1 & _)]; [congruence|].
  destruct (captureScreenshot_cases env name w2)
    as [(e & He & _)|(_ & Hp2 & _)]; [congruence|].
  rewrite Hp1 in H1. rewrite Hp2 in H2.
  inversion H1 as [E1]. inversion H2 as [E2]. clear H1 H2.
  split.
  - intros E. subst path1 path2.
    assert (E' : name ++ "_" ++ show (clock env (reads w1)) ++ ".png"
                 = name ++ "_" ++ show (clock env (reads w2)) ++ ".png")
      by (apply (append_cancel_l "screenshots/"); exact E).
    apply append_cancel_l in E'.
    assert (E'' : show (clock env (reads w1)) ++ ".png"
                  = show (clock env (reads w2)) ++ ".png")
      by (apply (append_cancel_l "_"); exact E').
    apply append_cancel_r in E''. now apply show_inj.
  - intros ->. reflexivity.
Qed.

Lemma screenshot_names_witness :
  fst (captureScreenshot (ticking 1793664000000 []) "error" start)
  = Ok "screenshots/error_1793664000000.png"
  /\ fst (captureScreenshot (ticking 1793664000000 []) "error"
            (snd (Date_now (ticking 1793664000000 []) start)))
     = Ok "screenshots/error_1793664000001.png"
  /\ ("screenshots/error_1793664000000.png"
      = "screenshots/error_1793664000001.png"
      <-> clock (ticking 1793664000000 []) (reads start)
          = clock (ticking 1793664000000 [])
              (reads (snd (Date_now (ticking 1793664000000 []) start)))).
Proof.
  split; [reflexivity|]. split; [reflexivity|].
  apply (screenshot_names (ticking 1793664000000 []) "error" start
           (snd (Date_now (ticking 1793664000000 []) start)));
    reflexivity.
Defined.
